(** * RagasAdapter: a shallow embedding of
      services/ark-evaluator/src/evaluator/oss_providers/ragas_adapter.py

    The adapter scores one (input, output) pair against a list of metric
    names.  It talks to collaborators that are not part of the file (the
    RAGAS engine, the LLM provider, asyncio, the process environment); those
    are taken as oracles of a [world] record, and every Python exception they
    may raise is a value of [exn].  Everything the file computes itself (the
    fallback heuristics, the result normalisation, the environment handling,
    the metric binding loop and the exception plumbing) is translated
    statement by statement. *)

From Stdlib Require Import Ascii QArith Qminmax.
From stdpp Require Import gmap strings list fin_maps.

Open Scope string_scope.
Open Scope list_scope.
Open Scope nat_scope.

(** ** Python values *)

(** A Python [str] is modelled as a Rocq [string] whose characters are the
    code points 0..255; [len] is [String.length]. *)

(** A Python [float].  Finite values are exact rationals: rounding to a
    double is not modelled.  [NaN] is what [math.isnan] detects. *)
Inductive pyfloat : Type :=
  | Fin (q : Q)
  | Inf (negative : bool)
  | NaN.

Definition isnan (x : pyfloat) : bool :=
  match x with NaN => true | _ => false end.

(** [min(a, b)] of Python on two numbers: [b] wins only when [b < a]. *)
Definition py_min (a b : Q) : Q :=
  match (b ?= a)%Q with Lt => b | _ => a end.

(** [str.isspace] on one code point below 256: TAB..CR, FS..US, space,
    NEL (0x85) and NBSP (0xA0).  [str.split()] splits on these. *)
Definition py_isspace (c : ascii) : bool :=
  let n := nat_of_ascii c in
  (((9 <=? n) && (n <=? 13)) || ((28 <=? n) && (n <=? 32))
   || (n =? 133) || (n =? 160))%nat.

(** [str.lower] on one code point below 256: A..Z and the Latin-1 capitals
    0xC0..0xDE (the multiplication sign 0xD7 apart) move up by 32.  On
    these code points lower-casing is character by character; beyond them
    Python's [lower] can change the length of a text (U+0130), so nothing
    below is stated about the length of a lower-cased text. *)
Definition py_lower_char (c : ascii) : ascii :=
  let n := nat_of_ascii c in
  if (((65 <=? n) && (n <=? 90))
      || ((192 <=? n) && (n <=? 222) && negb (n =? 215)))%nat
  then ascii_of_nat (n + 32) else c.

Fixpoint py_lower (s : string) : string :=
  match s with
  | EmptyString => EmptyString
  | String c s' => String (py_lower_char c) (py_lower s')
  end.

Definition nonempty (s : string) : bool :=
  match s with EmptyString => false | _ => true end.

(** [s.split()]: the maximal runs of non-whitespace characters, in order.
    [word] is the run being read. *)
Fixpoint py_split_from (word : string) (s : string) : list string :=
  match s with
  | EmptyString => if nonempty word then [word] else []
  | String c s' =>
      if py_isspace c
      then (if nonempty word then word :: py_split_from "" s'
            else py_split_from "" s')
      else py_split_from (word +:+ String c "") s'
  end.

Definition py_split (s : string) : list string := py_split_from "" s.

(** [s.startswith(w)] and [w in s] (substring containment). *)
Fixpoint py_startswith (w s : string) : bool :=
  match w, s with
  | EmptyString, _ => true
  | String _ _, EmptyString => false
  | String a w', String b s' => Ascii.eqb a b && py_startswith w' s'
  end.

Fixpoint py_contains (w s : string) : bool :=
  py_startswith w s
  || match s with
     | EmptyString => false
     | String _ s' => py_contains w s'
     end.

(** [set(words)] *)
Definition py_set (words : list string) : gset string := list_to_set words.

(** ** [RagasAdapter._fallback_evaluation] *)

Definition toxic_words : list string :=
  ["hate"; "stupid"; "idiot"; "kill"; "die"; "worst"].

(** [overlap / max(len(input_words), 1)], a true division of two ints. *)
Definition relevance_ratio (input_text output_text : string) : Q :=
  let input_words := py_set (py_split (py_lower input_text)) in
  let output_words := py_set (py_split (py_lower output_text)) in
  let overlap := size (input_words ∩ output_words) in
  (inject_Z (Z.of_nat overlap)
   / inject_Z (Z.of_nat (size input_words `max` 1)))%Q.

(** [sum(1 for word in toxic_words if word in output_text.lower())] *)
Definition toxic_count (output_text : string) : nat :=
  length (filter (λ word, py_contains word (py_lower output_text) = true)
                 toxic_words).

(** The body of the loop: the score stored under [metric]. *)
Definition fallback_score (input_text output_text metric : string) : pyfloat :=
  if decide (metric = "relevance") then
    Fin (py_min 1 (relevance_ratio input_text output_text))
  else if decide (metric = "correctness") then
    Fin (py_min 1 (inject_Z (Z.of_nat (String.length output_text)) / 100)%Q)
  else if decide (metric = "toxicity") then
    Fin (py_min 1 (inject_Z (Z.of_nat (toxic_count output_text)) / 3)%Q)
  else
    Fin (1 # 2).

(** [scores = {}; for metric in metrics: scores[metric] = ...; return scores] *)
Definition _fallback_evaluation (input_text output_text : string)
    (metrics : list string) : gmap string pyfloat :=
  foldl (λ scores metric,
           <[metric := fallback_score input_text output_text metric]> scores)
        ∅ metrics.

(** ** Exceptions, outcomes and the program state *)

(** The Python exceptions that can travel through the adapter.  All of them
    are subclasses of [Exception]; [OtherException] stands for any further
    subclass a collaborator raises.  Signals outside [Exception]
    (KeyboardInterrupt, SystemExit, task cancellation) are not modelled. *)
Inductive exn : Type :=
  | ImportError
  | RuntimeError
  | UnboundLocalError
  | KeyError
  | IndexError
  | ValueError
  | OtherException.

Inductive result (A : Type) : Type :=
  | Ok (a : A)
  | Raise (e : exn).
Arguments Ok {A} a.
Arguments Raise {A} e.

(** The modules the adapter imports inside its functions. *)
Inductive pymodule : Type :=
  | ragas
  | ragas_metrics
  | datasets
  | ragas_llms
  | langchain_openai
  | ragas_embeddings
  | ragas_metrics_base
  | ragas_run_config.

(** Opaque collaborator objects (LLM clients, embeddings clients), by
    number. *)
Abbreviation handle := nat (only parsing).

(** A RAGAS metric object: the attributes the adapter reads or writes. *)
Record metric_obj : Type := MetricObj {
  name : string;
  is_MetricWithLLM : bool;
  is_MetricWithEmbeddings : bool;
  llm : option handle;
  embeddings : option handle;
  initialised : bool
}.

(** Heap locations. *)
Abbreviation loc := nat (only parsing).

(** The metric names the adapter takes from [ragas.metrics]. *)
Inductive ragas_export : Type :=
  | answer_relevancy
  | answer_correctness
  | answer_similarity
  | faithfulness.

(** What a name of [ragas.metrics] is bound to.  The adapter tells the two
    apart with [hasattr(m, '__call__') and not hasattr(m, 'name')]: a
    [MetricClass] is callable and has no [name], calling it builds a new
    object (and is taken not to raise); a [MetricInstance] is an object
    that already lives in the module, at a heap location, for as long as
    the process runs. *)
Inductive metric_ref : Type :=
  | MetricClass (template : metric_obj)
  | MetricInstance (l : loc).

(** One record of the evaluation dataset. *)
Record dataset_row : Type := DatasetRow {
  question : string;
  answer : string;
  contexts : list string;
  ground_truth : string;
  user_input : string;
  response : string;
  retrieved_contexts : list string;
  reference : string
}.

(** [EvaluationParameters], of [..types]: the two attributes read here. *)
Record eval_parameters : Type := EvalParameters {
  context : option string;
  context_source : option string
}.

(** The collaborators, as oracles.  [get_event_loop] gives
    [str(type(loop))]; [ev_ragas] receives the dataset and the bound metric
    objects and gives the records of [result.to_pandas()]. *)
Record world : Type := World {
  get_event_loop : result string;
  importable : pymodule → bool;
  detect_provider : gmap string string → result (string * gmap string string);
  create_instance : string → gmap string string → result handle;
  LangchainLLMWrapper : handle → result handle;
  agenerate : handle → result unit;
  AzureOpenAIEmbeddings :
    string → string → string → string → string → result handle;
  LangchainEmbeddingsWrapper : handle → result handle;
  embed_query : handle → result unit;
  ragas_metrics_exports : ragas_export → metric_ref;
  metric_init : metric_obj → result unit;
  from_request_params : gmap string string → result eval_parameters;
  ev_ragas :
    list dataset_row → list metric_obj → result (list (gmap string pyfloat))
}.

(** The state a call can change: the process environment [os.environ], the
    heap of metric objects, and the record of the calls made to the engine
    (kept to state what the engine was handed). *)
Record state : Type := State {
  environ : gmap string string;
  heap : list metric_obj;
  engine_calls : list (list dataset_row * list metric_obj)
}.

(** ** The state and exception monad *)

Definition M (A : Type) : Type := state → result A * state.

Definition ret {A} (a : A) : M A := λ st, (Ok a, st).

Definition bind {A B} (m : M A) (k : A → M B) : M B :=
  λ st, match m st with
        | (Ok a, st') => k a st'
        | (Raise e, st') => (Raise e, st')
        end.

Definition raise {A} (e : exn) : M A := λ st, (Raise e, st).

(** An oracle's outcome, raised or returned. *)
Definition lift {A} (r : result A) : M A := λ st, (r, st).

(** [try: body  except Exception as e: handler(e)] *)
Definition try_except {A} (body : M A) (handler : exn → M A) : M A :=
  λ st, match body st with
        | (Ok a, st') => (Ok a, st')
        | (Raise e, st') => handler e st'
        end.

(** [try: body  finally: cleanup] *)
Definition try_finally {A} (body : M A) (cleanup : M unit) : M A :=
  λ st, match body st with
        | (r, st') =>
            match cleanup st' with
            | (Ok _, st'') => (r, st'')
            | (Raise e, st'') => (Raise e, st'')
            end
        end.

#[global] Instance M_ret : MRet M := @ret.
#[global] Instance M_bind : MBind M := λ A B k m, bind m k.

Definition get_state : M state := λ st, (Ok st, st).

(** [import m] / [from m import ...] *)
Definition import_ (w : world) (m : pymodule) : M unit :=
  if importable w m then ret tt else raise ImportError.

(** A NUL character somewhere in the text. *)
Fixpoint has_nul (s : string) : bool :=
  match s with
  | EmptyString => false
  | String c s' => Ascii.eqb c Ascii.zero || has_nul s'
  end.

(** [os.environ[var] = value].  The assignment raises [ValueError]
    ("embedded null byte") when the value holds a NUL character, and then
    sets nothing.  The names assigned by the adapter are constants without
    NUL or '='. *)
Definition environ_set (var value : string) : M unit :=
  if has_nul value then raise ValueError
  else λ st, (Ok tt, State (<[var := value]> (environ st)) (heap st)
                           (engine_calls st)).

(** [os.environ.pop(var, None)] *)
Definition environ_pop (var : string) : M unit :=
  λ st, (Ok tt, State (delete var (environ st)) (heap st) (engine_calls st)).

(** [d[key]] on a dict, raising [KeyError]. *)
Definition getitem {V} (d : gmap string V) (key : string) : M V :=
  match d !! key with
  | Some v => ret v
  | None => raise KeyError
  end.

(** Building an instance of a metric class: a new heap object. *)
Definition alloc (o : metric_obj) : M loc :=
  λ st, (Ok (length (heap st)),
         State (environ st) (heap st ++ [o]) (engine_calls st)).

(** Reading an object through its reference. *)
Definition deref (l : loc) : M metric_obj :=
  λ st, match heap st !! l with
        | Some o => (Ok o, st)
        | None => (Raise OtherException, st)
        end.

(** Writing an object through its reference. *)
Definition store (l : loc) (o : metric_obj) : M unit :=
  λ st, (Ok tt, State (environ st) (<[l := o]> (heap st)) (engine_calls st)).

Definition record_engine_call (d : list dataset_row) (ms : list metric_obj)
  : M unit :=
  λ st, (Ok tt,
         State (environ st) (heap st) (engine_calls st ++ [(d, ms)])).

(** ** [RagasAdapter.__init__]: the table of engine-native names *)

Definition supported_ragas_metrics : gmap string string :=
  list_to_map
    [("relevance", "answer_relevancy");
     ("correctness", "answer_correctness");
     ("similarity", "answer_similarity");
     ("faithfulness", "faithfulness");
     ("helpfulness", "answer_relevancy");
     ("clarity", "answer_similarity")].

(** ** [RagasAdapter._run_ragas_async] *)

(** The local table [ragas_metric_map]; ['toxicity'] is bound to [None]. *)
Definition ragas_metric_map : gmap string (option ragas_export) :=
  list_to_map
    [("relevance", Some answer_relevancy);
     ("correctness", Some answer_correctness);
     ("similarity", Some answer_similarity);
     ("faithfulness", Some faithfulness);
     ("toxicity", None);
     ("helpfulness", Some answer_relevancy);
     ("clarity", Some answer_similarity)].

(** Lines 212-217 (and 238-239): "create fresh instance if needed". *)
Definition instantiate (w : world) (ragas_metric : ragas_export) : M loc :=
  match ragas_metrics_exports w ragas_metric with
  | MetricClass template => alloc template
  | MetricInstance l => mret l
  end.

Definition set_llm (h : handle) (o : metric_obj) : metric_obj :=
  MetricObj (name o) (is_MetricWithLLM o) (is_MetricWithEmbeddings o)
            (Some h) (embeddings o) (initialised o).

Definition set_embeddings (h : handle) (o : metric_obj) : metric_obj :=
  MetricObj (name o) (is_MetricWithLLM o) (is_MetricWithEmbeddings o)
            (llm o) (Some h) (initialised o).

Definition set_initialised (o : metric_obj) : metric_obj :=
  MetricObj (name o) (is_MetricWithLLM o) (is_MetricWithEmbeddings o)
            (llm o) (embeddings o) true.

(** Lines 220-230 (and 240-245): attach the handles, then [init]. *)
Definition configure (w : world) (llm_h : handle) (emb : option handle)
    (metric_instance : loc) : M unit :=
  o ← deref metric_instance;
  (if is_MetricWithLLM o then store metric_instance (set_llm llm_h o)
   else mret tt);;
  o ← deref metric_instance;
  match emb with
  | Some e =>
      if is_MetricWithEmbeddings o
      then store metric_instance (set_embeddings e o)
      else mret tt
  | None => mret tt
  end;;
  o ← deref metric_instance;
  lift (metric_init w o);;
  store metric_instance (set_initialised o).

(** The loop of lines 202-232.  [supported_metrics] is the list built so
    far; [bound] tells whether the names [MetricWithLLM],
    [MetricWithEmbeddings] and [RunConfig] have been bound by the imports
    inside the loop body. *)
Fixpoint bind_metrics (w : world) (llm_h : handle) (emb : option handle)
    (metrics : list string) (supported_metrics : list loc) (bound : bool)
  : M (list loc * bool) :=
  match metrics with
  | [] => mret (supported_metrics, bound)
  | metric :: rest =>
      match ragas_metric_map !! metric with
      | Some (Some ragas_metric) =>
          import_ w ragas_metrics_base;;
          import_ w ragas_run_config;;
          metric_instance ← instantiate w ragas_metric;
          configure w llm_h emb metric_instance;;
          bind_metrics w llm_h emb rest
                       (supported_metrics ++ [metric_instance]) true
      | _ => bind_metrics w llm_h emb rest supported_metrics bound
      end
  end.

(** Lines 234-246: the default metric.  [MetricWithLLM] is a local name of
    the function, bound only by the import inside the loop body; reading it
    unbound raises [UnboundLocalError]. *)
Definition default_metrics (w : world) (llm_h : handle) (emb : option handle)
    (bound : bool) : M (list loc) :=
  default_metric ← instantiate w answer_relevancy;
  (if bound then mret tt else raise UnboundLocalError);;
  configure w llm_h emb default_metric;;
  mret [default_metric].

(** Lines 134-150: the LLM handle. *)
Definition make_llm (w : world) (provider_type : string)
    (llm_config : gmap string string) : M handle :=
  try_except
    (langchain_llm ← lift (create_instance w provider_type llm_config);
     import_ w ragas_llms;;
     llm_h ← lift (LangchainLLMWrapper w langchain_llm);
     try_except (lift (agenerate w langchain_llm)) (λ _, mret tt);;
     mret llm_h)
    (λ llm_e, raise llm_e).

(** Lines 153-187: the embeddings handle, [None] on any failure. *)
Definition make_embeddings (w : world) (provider_type : string)
    (llm_config params : gmap string string) : M (option handle) :=
  try_except
    (if decide (provider_type = "azure_openai") then
       import_ w langchain_openai;;
       import_ w ragas_embeddings;;
       let embedding_deployment :=
         default "text-embedding-ada-002"
                 (params !! "langfuse.azure_embedding_deployment") in
       let embedding_model :=
         default "text-embedding-ada-002"
                 (params !! "langfuse.azure_embedding_model") in
       getitem llm_config "deployment_name";;
       api_base ← getitem llm_config "api_base";
       api_version ← getitem llm_config "api_version";
       api_key ← getitem llm_config "api_key";
       azure_embeddings ←
         lift (AzureOpenAIEmbeddings w embedding_model api_base
                                     embedding_deployment api_version api_key);
       emb ← lift (LangchainEmbeddingsWrapper w azure_embeddings);
       try_except (lift (embed_query w azure_embeddings)) (λ _, mret tt);;
       mret (Some emb)
     else mret None)
    (λ _, mret None).

(** Lines 249-260: the context passage. *)
Definition make_contexts (eval_params : eval_parameters) : list string :=
  let context := default "" (context eval_params) in
  if nonempty context then [context]
  else ["No specific context provided"].

(** Lines 264-277: the single record handed to the engine;
    [Dataset.from_list] is taken as the identity. *)
Definition make_dataset (input_text output_text : string)
    (contexts : list string) : list dataset_row :=
  [] ++ [ {| question := input_text;
             answer := output_text;
             contexts := contexts;
             ground_truth := output_text;
             user_input := input_text;
             response := output_text;
             retrieved_contexts := contexts;
             reference := output_text |} ].

(** Lines 289-293: the scores returned when the engine call raises. *)
Definition neutral_scores (metrics : list string) : gmap string pyfloat :=
  foldl (λ fallback_scores metric, <[metric := Fin (1 # 2)]> fallback_scores)
        ∅ metrics.

(** Lines 302-314: the value found for [metric] in the engine's record. *)
Definition engine_value (result_dict : gmap string pyfloat) (metric : string)
  : option pyfloat :=
  if bool_decide (metric = "relevance")
     && bool_decide ("answer_relevancy" ∈ dom result_dict)
  then result_dict !! "answer_relevancy"
  else if bool_decide (metric = "correctness")
          && bool_decide ("answer_correctness" ∈ dom result_dict)
  then result_dict !! "answer_correctness"
  else if bool_decide (metric = "similarity")
          && bool_decide ("answer_similarity" ∈ dom result_dict)
  then result_dict !! "answer_similarity"
  else if bool_decide (metric = "faithfulness")
          && bool_decide ("faithfulness" ∈ dom result_dict)
  then result_dict !! "faithfulness"
  else if bool_decide (metric = "helpfulness")
          && bool_decide ("answer_relevancy" ∈ dom result_dict)
  then result_dict !! "answer_relevancy"
  else if bool_decide (metric = "clarity")
          && bool_decide ("answer_similarity" ∈ dom result_dict)
  then result_dict !! "answer_similarity"
  else None.

(** Lines 316-325: the score stored under [metric]. *)
Definition normalized_score (result_dict : gmap string pyfloat)
    (metric : string) : pyfloat :=
  match engine_value result_dict metric with
  | Some value => if isnan value then Fin (7 # 10) else value
  | None => Fin 0
  end.

(** Lines 296-328: [scores = {}; for metric in metrics: ...]. *)
Definition normalize (result_dict : gmap string pyfloat)
    (metrics : list string) : gmap string pyfloat :=
  foldl (λ scores metric,
           <[metric := normalized_score result_dict metric]> scores)
        ∅ metrics.

(** [records[0]], raising [IndexError] on an empty list. *)
Definition first_record {A} (records : list A) : M A :=
  match records with
  | r :: _ => mret r
  | [] => raise IndexError
  end.

(** The objects behind a list of references, as the engine sees them. *)
Definition snapshot (refs : list loc) : M (list metric_obj) :=
  st ← get_state;
  mret (omap (λ l, heap st !! l) refs).

Definition _run_ragas_async (w : world) (input_text output_text : string)
    (metrics : list string) (params : gmap string string)
  : M (gmap string pyfloat) :=
  import_ w ragas;;
  import_ w ragas_metrics;;
  import_ w datasets;;
  '(provider_type, llm_config) ← lift (detect_provider w params);
  llm_h ← make_llm w provider_type llm_config;
  emb ← make_embeddings w provider_type llm_config params;
  '(supported_metrics, bound) ← bind_metrics w llm_h emb metrics [] false;
  supported_metrics ←
    (match supported_metrics with
     | [] => default_metrics w llm_h emb bound
     | _ => mret supported_metrics
     end);
  eval_params ← lift (from_request_params w params);
  let contexts := make_contexts eval_params in
  let eval_dataset := make_dataset input_text output_text contexts in
  bound_metrics ← snapshot supported_metrics;
  record_engine_call eval_dataset bound_metrics;;
  match ev_ragas w eval_dataset bound_metrics with
  | Raise eval_e => mret (neutral_scores metrics)
  | Ok result =>
      result_dict ← first_record result;
      mret (normalize result_dict metrics)
  end.

(** ** [RagasAdapter._run_ragas_sync] *)

(** Lines 75-85: the provider variables taken from [params]; the result is
    [env_vars_set]. *)
Definition set_provider_environment (params : gmap string string)
  : M (list string) :=
  env_vars_set ←
    (match params !! "langfuse.azure_api_key" return M (list string) with
     | Some v => environ_set "AZURE_OPENAI_API_KEY" v;;
                 mret ([] ++ ["AZURE_OPENAI_API_KEY"])%list
     | None => mret []
     end);
  env_vars_set ←
    (match params !! "langfuse.azure_endpoint" with
     | Some v => environ_set "AZURE_OPENAI_ENDPOINT" v;;
                 mret (env_vars_set ++ ["AZURE_OPENAI_ENDPOINT"])%list
     | None => mret env_vars_set
     end);
  match params !! "langfuse.model_version" with
  | Some v => environ_set "OPENAI_API_VERSION" v;;
              mret (env_vars_set ++ ["OPENAI_API_VERSION"])%list
  | None => mret env_vars_set
  end.

(** Lines 110-111: [for var in env_vars_set: os.environ.pop(var, None)]. *)
Fixpoint clean_up_environment (env_vars_set : list string) : M unit :=
  match env_vars_set with
  | [] => mret tt
  | var :: rest => environ_pop var;; clean_up_environment rest
  end.

(** The event loop calls of asyncio (policy, new loop, close) change nothing
    that is modelled and are taken not to raise. *)
Definition _run_ragas_sync (w : world) (input_text output_text : string)
    (metrics : list string) (params : gmap string string)
  : M (gmap string pyfloat) :=
  env_vars_set ← set_provider_environment params;
  try_finally
    (try_except
       (_run_ragas_async w input_text output_text metrics params)
       (λ e, raise e))
    (clean_up_environment env_vars_set).

(** ** [RagasAdapter.evaluate] *)

(** Lines 41-45: [RuntimeError] alone is caught here. *)
Definition detect_uvloop (w : world) : M bool :=
  match get_event_loop w with
  | Ok loop_type => mret (py_contains "uvloop" loop_type)
  | Raise RuntimeError => mret false
  | Raise e => raise e
  end.

(** The worker thread of the executor runs [_run_ragas_sync] to its end and
    [future.result()] gives back its value or its exception. *)
Definition evaluate (w : world) (input_text output_text : string)
    (metrics : list string) (params : gmap string string)
  : M (gmap string pyfloat) :=
  try_except
    (is_uvloop ← detect_uvloop w;
     if is_uvloop : bool
     then _run_ragas_sync w input_text output_text metrics params
     else _run_ragas_async w input_text output_text metrics params)
    (λ e, match e with
          | ImportError => mret (_fallback_evaluation input_text output_text metrics)
          | _ => mret (_fallback_evaluation input_text output_text metrics)
          end).

(** ** Definitions used to state the properties *)

(** The dict built by [for k in keys: d[k] = f(k)], starting from [d]. *)
Definition fill {V} (f : string → V) (d : gmap string V)
    (keys : list string) : gmap string V :=
  foldl (λ d k, <[k := f k]> d) d keys.

(** [w] occurs in [s]: the meaning of Python's [w in s] on strings. *)
Definition is_substring (w s : string) : Prop :=
  ∃ pre post : string, s = pre +:+ w +:+ post.

(** [s] holds no whitespace character. *)
Fixpoint no_whitespace (s : string) : bool :=
  match s with
  | EmptyString => true
  | String c s' => negb (py_isspace c) && no_whitespace s'
  end.

(** A token: not empty, no whitespace inside. *)
Definition is_token (t : string) : Prop :=
  t ≠ "" ∧ no_whitespace t = true.

(** The count a reading by tokens would give: the words of the list that
    are whitespace-separated tokens of the lower-cased output. *)
Definition toxic_token_count (output_text : string) : nat :=
  length (filter (λ word, word ∈ py_split (py_lower output_text)) toxic_words).

(** The value the engine's record holds under the engine-native name that
    the table of [__init__] gives to [metric]. *)
Definition native_value (result_dict : gmap string pyfloat) (metric : string)
  : option pyfloat :=
  supported_ragas_metrics !! metric ≫= λ key, result_dict !! key.

(** ** A program logic for the monad *)

(** [hoare P m Q]: from a state satisfying [P], the outcome and final state
    of [m] satisfy [Q].  Every computation of [M] terminates, so this is a
    total-correctness triple. *)
Definition hoare {A} (P : state → Prop) (m : M A)
    (Q : result A → state → Prop) : Prop :=
  ∀ st, P st → Q (m st).1 (m st).2.

(** [stable I m]: [m] keeps the state inside [I], whatever its outcome. *)
Definition stable {A} (I : state → Prop) (m : M A) : Prop :=
  hoare I m (λ _, I).

(** The environment and the record of engine calls are [E] and [C]. *)
Definition unchanged (E : gmap string string)
    (C : list (list dataset_row * list metric_obj)) (st : state) : Prop :=
  environ st = E ∧ engine_calls st = C.

(** What the call returns once the engine has been handed [call]:
    lines 281-328. *)
Definition engine_outcome (w : world) (metrics : list string)
    (call : list dataset_row * list metric_obj)
    (r : result (gmap string pyfloat)) : Prop :=
  match ev_ragas w call.1 call.2 with
  | Raise _ => r = Ok (neutral_scores metrics)
  | Ok [] => r = Raise IndexError
  | Ok (result_dict :: _) => r = Ok (normalize result_dict metrics)
  end.

(** The two ways [_run_ragas_async] can end, from a state whose record of
    engine calls is [C]: an exception before the engine is reached, or one
    engine call on the dataset of [make_dataset]. *)
Definition async_post (w : world) (input_text output_text : string)
    (metrics : list string)
    (C : list (list dataset_row * list metric_obj))
    (r : result (gmap string pyfloat)) (st' : state) : Prop :=
  (engine_calls st' = C ∧ ∃ e, r = Raise e)
  ∨ (∃ contexts bound_metrics,
       let call := (make_dataset input_text output_text contexts,
                    bound_metrics) in
       engine_calls st' = C ++ [call] ∧ engine_outcome w metrics call r).

(** The variables [_run_ragas_sync] sets for [params], in order: the value
    of [env_vars_set] at line 87. *)
Definition provider_variables (params : gmap string string) : list string :=
  (if decide (is_Some (params !! "langfuse.azure_api_key"))
   then ["AZURE_OPENAI_API_KEY"] else [])
  ++ (if decide (is_Some (params !! "langfuse.azure_endpoint"))
      then ["AZURE_OPENAI_ENDPOINT"] else [])
  ++ (if decide (is_Some (params !! "langfuse.model_version"))
      then ["OPENAI_API_VERSION"] else []).

(** Every value [_run_ragas_sync] would write into the environment can be
    written: none holds a NUL character. *)
Definition settable (params : gmap string string) : bool :=
  forallb (λ key, match params !! key with
                  | Some value => negb (has_nul value)
                  | None => true
                  end)
          ["langfuse.azure_api_key"; "langfuse.azure_endpoint";
           "langfuse.model_version"].

(** The assignments of lines 75-85 in their order, as pairs of a variable
    and the value [params] gives it. *)
Definition provider_assignments (params : gmap string string)
  : list (string * string) :=
  (match params !! "langfuse.azure_api_key" with
   | Some value => [("AZURE_OPENAI_API_KEY", value)]
   | None => []
   end)
  ++ (match params !! "langfuse.azure_endpoint" with
      | Some value => [("AZURE_OPENAI_ENDPOINT", value)]
      | None => []
      end)
  ++ (match params !! "langfuse.model_version" with
      | Some value => [("OPENAI_API_VERSION", value)]
      | None => []
      end).

(** The environment after assignments made in order up to the first value
    that cannot be written. *)
Fixpoint assign (E : gmap string string) (assignments : list (string * string))
  : gmap string string :=
  match assignments with
  | [] => E
  | (var, value) :: rest =>
      if has_nul value then E else assign (<[var := value]> E) rest
  end.

(** A text with a NUL character in it. *)
Definition text_with_nul : string :=
  String "a"%char (String Ascii.zero (String "b"%char EmptyString)).

(** The scores [evaluate] returns once the engine has been handed [call]. *)
Definition engine_scores (w : world) (input_text output_text : string)
    (metrics : list string) (call : list dataset_row * list metric_obj)
  : gmap string pyfloat :=
  match ev_ragas w call.1 call.2 with
  | Raise _ => neutral_scores metrics
  | Ok [] => _fallback_evaluation input_text output_text metrics
  | Ok (result_dict :: _) => normalize result_dict metrics
  end.

(** The two ways [evaluate] can end: the fallback scorer without any engine
    call, or one engine call on the dataset of [make_dataset]. *)
Definition evaluate_post (w : world) (input_text output_text : string)
    (metrics : list string)
    (C : list (list dataset_row * list metric_obj))
    (r : result (gmap string pyfloat)) (st' : state) : Prop :=
  (engine_calls st' = C
   ∧ r = Ok (_fallback_evaluation input_text output_text metrics))
  ∨ (∃ contexts bound_metrics,
       let call := (make_dataset input_text output_text contexts,
                    bound_metrics) in
       engine_calls st' = C ++ [call]
       ∧ r = Ok (engine_scores w input_text output_text metrics call)).

(** ** Sample collaborators, for concrete runs *)

(** The four metric objects of [ragas.metrics], before any call. *)
Definition sample_objects : list metric_obj :=
  [ MetricObj "answer_relevancy" true true None None false;
    MetricObj "answer_correctness" true true None None false;
    MetricObj "answer_similarity" true true None None false;
    MetricObj "faithfulness" true false None None false ].

Definition export_index (m : ragas_export) : nat :=
  match m with
  | answer_relevancy => 0
  | answer_correctness => 1
  | answer_similarity => 2
  | faithfulness => 3
  end.

(** [ragas.metrics] binds its names to objects of the module (as the
    branch "it's already an instance" of the adapter expects). *)
Definition instance_exports (m : ragas_export) : metric_ref :=
  MetricInstance (export_index m).

(** [ragas.metrics] binds its names to classes. *)
Definition class_exports (m : ragas_export) : metric_ref :=
  MetricClass
    (default (MetricObj "" false false None None false)
             (sample_objects !! export_index m)).

(** A provider detector: Azure when the key is given, with the embeddings
    client numbered by the endpoint given. *)
Definition sample_detect_provider (params : gmap string string)
  : result (string * gmap string string) :=
  match params !! "langfuse.azure_api_key" with
  | Some key =>
      Ok ("azure_openai",
          <["deployment_name" := "gpt"]>
            (<["api_base" := default "https://a"
                                     (params !! "langfuse.azure_endpoint")]>
               (<["api_version" := "v1"]> {[ "api_key" := key ]})))
  | None => Ok ("openai", ∅)
  end.

Definition sample_world_with (imports : pymodule → bool)
    (loop_type : string) (exports : ragas_export → metric_ref)
    (engine : list dataset_row → list metric_obj
              → result (list (gmap string pyfloat))) : world :=
  {| get_event_loop := Ok loop_type;
     importable := imports;
     detect_provider := sample_detect_provider;
     create_instance := λ _ _, Ok 1;
     LangchainLLMWrapper := λ h, Ok (h + 10);
     agenerate := λ _, Ok tt;
     AzureOpenAIEmbeddings := λ _ endpoint _ _ _, Ok (String.length endpoint);
     LangchainEmbeddingsWrapper := λ h, Ok (h + 20);
     embed_query := λ _, Ok tt;
     ragas_metrics_exports := exports;
     metric_init := λ _, Ok tt;
     from_request_params :=
       λ params, Ok (EvalParameters (params !! "context") None);
     ev_ragas := engine |}.

(** Every module can be imported. *)
Definition sample_world : string → (ragas_export → metric_ref)
    → (list dataset_row → list metric_obj
       → result (list (gmap string pyfloat))) → world :=
  sample_world_with (λ _, true).

Definition failing_engine (d : list dataset_row) (ms : list metric_obj)
  : result (list (gmap string pyfloat)) :=
  Raise OtherException.

(** An engine that scores every bound metric 4/5 under its name. *)
Definition constant_engine (d : list dataset_row) (ms : list metric_obj)
  : result (list (gmap string pyfloat)) :=
  Ok [ list_to_map ((λ o, (name o, Fin (4 # 5))) <$> ms) ].

Definition sample_state (E : gmap string string) : state :=
  State E sample_objects [].

(** The calls to the engine made by a run that went from [st] to [st']. *)
Definition new_engine_calls (st st' : state)
  : list (list dataset_row * list metric_obj) :=
  drop (length (engine_calls st)) (engine_calls st').

(** A world in which no module of the engine can be imported. *)
Definition no_engine_world (loop_type : string) : world :=
  sample_world_with (λ _, false) loop_type instance_exports failing_engine.

(** A world in which only the provider's embeddings library is missing. *)
Definition no_embeddings_library_world : world :=
  sample_world_with
    (λ m, match m with langchain_openai => false | _ => true end)
    "asyncio" instance_exports constant_engine.

(** [m] ends in an exception from every state. *)
Definition raises {A} (m : M A) : Prop :=
  ∀ st, ∃ e, (m st).1 = Raise e.

(** The modules of the evaluation engine whose import is not guarded by a
    handler of its own: [ragas], [ragas.metrics], [datasets], [ragas.llms],
    [ragas.metrics.base] and [ragas.run_config]. *)
Definition engine_modules : list pymodule :=
  [ragas; ragas_metrics; datasets; ragas_llms; ragas_metrics_base;
   ragas_run_config].

(** ** Definitions for the metric heap *)

(** Every name of [ragas.metrics] the adapter uses is bound to a class. *)
Definition classes_only (w : world) : Prop :=
  ∀ m, ∃ template, ragas_metrics_exports w m = MetricClass template.

(** [m] treats the state it starts from as a frame: its outcome [r], the
    objects [objs] it adds to the heap and the engine calls [calls] it makes
    do not depend on that state, the heap it finds is kept as it is, and
    the environment it leaves depends on the environment it found only. *)
Definition framed {A} (m : M A) : Prop :=
  ∃ (r : result A) (fE : gmap string string → gmap string string)
    (objs : list metric_obj)
    (calls : list (list dataset_row * list metric_obj)),
    ∀ st, m st = (r, State (fE (environ st)) (heap st ++ objs)
                           (engine_calls st ++ calls)).

(** What [configure] makes of a new object [t], and how it ends. *)
Definition configured (w : world) (llm_h : handle) (emb : option handle)
    (t : metric_obj) : metric_obj * result unit :=
  let o1 := if is_MetricWithLLM t then set_llm llm_h t else t in
  let o2 := match emb with
            | Some e => if is_MetricWithEmbeddings o1
                        then set_embeddings e o1 else o1
            | None => o1
            end in
  match metric_init w o2 with
  | Ok _ => (set_initialised o2, Ok tt)
  | Raise e => (o2, Raise e)
  end.

(** ** Definitions for the further properties *)

(** The engine metric bound for a requested name, if any: the test
    [metric in ragas_metric_map and ragas_metric_map[metric] is not None]
    of line 203 and the value read at line 205. *)
Definition engine_metric (metric : string) : option ragas_export :=
  ragas_metric_map !! metric ≫= id.

(** The name under which [ragas.metrics] exports each metric. *)
Definition export_name (m : ragas_export) : string :=
  match m with
  | answer_relevancy => "answer_relevancy"
  | answer_correctness => "answer_correctness"
  | answer_similarity => "answer_similarity"
  | faithfulness => "faithfulness"
  end.

(** [m] ends in an exception and keeps the state inside [I]. *)
Definition fails_in {A} (I : state → Prop) (m : M A) : Prop :=
  hoare I m (λ r st, I st ∧ ∃ e, r = Raise e).

(** No LLM handle can be made for [params]: provider detection, the
    provider's constructor or the wrapper raises (lines 130-150). *)
Definition llm_unavailable (w : world) (params : gmap string string) : Prop :=
  match detect_provider w params with
  | Raise _ => True
  | Ok (provider_type, llm_config) =>
      match create_instance w provider_type llm_config with
      | Raise _ => True
      | Ok langchain_llm =>
          match LangchainLLMWrapper w langchain_llm with
          | Raise _ => True
          | Ok _ => False
          end
      end
  end.

(** A world whose provider cannot build an LLM client. *)
Definition broken_provider_world : world :=
  {| get_event_loop := Ok "<class 'uvloop.Loop'>";
     importable := λ _, true;
     detect_provider := sample_detect_provider;
     create_instance := λ _ _, Raise OtherException;
     LangchainLLMWrapper := λ h, Ok (h + 10);
     agenerate := λ _, Ok tt;
     AzureOpenAIEmbeddings := λ _ endpoint _ _ _, Ok (String.length endpoint);
     LangchainEmbeddingsWrapper := λ h, Ok (h + 20);
     embed_query := λ _, Ok tt;
     ragas_metrics_exports := instance_exports;
     metric_init := λ _, Ok tt;
     from_request_params :=
       λ params, Ok (EvalParameters (params !! "context") None);
     ev_ragas := constant_engine |}.

(** The world [w] with other connectivity tests: [agenerate] of line 142
    and [embed_query] of line 180. *)
Definition with_connectivity_tests
    (llm_test embeddings_test : handle → result unit) (w : world) : world :=
  {| get_event_loop := get_event_loop w;
     importable := importable w;
     detect_provider := detect_provider w;
     create_instance := create_instance w;
     LangchainLLMWrapper := LangchainLLMWrapper w;
     agenerate := llm_test;
     AzureOpenAIEmbeddings := AzureOpenAIEmbeddings w;
     LangchainEmbeddingsWrapper := LangchainEmbeddingsWrapper w;
     embed_query := embeddings_test;
     ragas_metrics_exports := ragas_metrics_exports w;
     metric_init := metric_init w;
     from_request_params := from_request_params w;
     ev_ragas := ev_ragas w |}.

(** The number of requested names for which an engine metric is bound
    (a name counts as often as it is requested). *)
Definition count_bound (metrics : list string) : nat :=
  length (filter (λ metric, is_Some (engine_metric metric)) metrics).

(** A metric object is ready for the engine: [init] has been called on it
    and, if it is a metric with LLM, an LLM handle is attached. *)
Definition ready (o : metric_obj) : Prop :=
  initialised o = true ∧ (is_MetricWithLLM o = true → is_Some (llm o)).

(** All references of [refs] point to ready objects of the heap [h]. *)
Definition all_ready (refs : list loc) (h : list metric_obj) : Prop :=
  ∀ l, l ∈ refs → ∃ o, h !! l = Some o ∧ ready o.

(** What every call to the engine looks like: the dataset is made from the
    context of [from_request_params], and the metrics are one ready object
    for each requested name that has an engine metric, at least one. *)
Definition engine_call_ok (w : world) (input_text output_text : string)
    (metrics : list string) (params : gmap string string)
    (call : list dataset_row * list metric_obj) : Prop :=
  ∃ eval_params,
    from_request_params w params = Ok eval_params
    ∧ call.1 = make_dataset input_text output_text
                            (make_contexts eval_params)
    ∧ length call.2 = count_bound metrics
    ∧ 0 < count_bound metrics
    ∧ Forall ready call.2.

(** Whether [evaluate] takes the isolated path: lines 41-47. *)
Definition isolated (w : world) : bool :=
  match get_event_loop w with
  | Ok loop_type => py_contains "uvloop" loop_type
  | Raise _ => false
  end.

(** [o'] is the object [o] after some bindings: the same metric (name and
    capability classes), with whatever was attached to [o] still attached
    to something. *)
Definition grows (o o' : metric_obj) : Prop :=
  name o' = name o
  ∧ is_MetricWithLLM o' = is_MetricWithLLM o
  ∧ is_MetricWithEmbeddings o' = is_MetricWithEmbeddings o
  ∧ (is_Some (llm o) → is_Some (llm o'))
  ∧ (is_Some (embeddings o) → is_Some (embeddings o'))
  ∧ (initialised o = true → initialised o' = true).

(** Every object of the heap [h0] is still in the state, grown. *)
Definition keeps_objects (h0 : list metric_obj) (st : state) : Prop :=
  ∀ l o, h0 !! l = Some o → ∃ o', heap st !! l = Some o' ∧ grows o o'.

(** A world whose request parameters cannot be parsed. *)
Definition bad_parameters_world : world :=
  {| get_event_loop := Ok "asyncio";
     importable := λ _, true;
     detect_provider := sample_detect_provider;
     create_instance := λ _ _, Ok 1;
     LangchainLLMWrapper := λ h, Ok (h + 10);
     agenerate := λ _, Ok tt;
     AzureOpenAIEmbeddings := λ _ endpoint _ _ _, Ok (String.length endpoint);
     LangchainEmbeddingsWrapper := λ h, Ok (h + 20);
     embed_query := λ _, Ok tt;
     ragas_metrics_exports := instance_exports;
     metric_init := λ _, Ok tt;
     from_request_params := λ _, Raise OtherException;
     ev_ragas := constant_engine |}.

(** * Properties *)

(** ** Python helpers *)

Lemma py_min_Qmin (a b : Q) : py_min a b = Qmin a b.
Proof.
  unfold py_min, Qmin, GenericMinMax.gmin.
  rewrite <- (Qcompare_antisym a b).
  destruct (a ?= b)%Q; reflexivity.
Qed.

Lemma py_min_le_mono (a x y : Q) : (x <= y)%Q → (py_min a x <= py_min a y)%Q.
Proof.
  intros Hxy. rewrite !py_min_Qmin.
  apply Q.min_le_compat_l. exact Hxy.
Qed.

Lemma py_min_saturates (a x : Q) : (a <= x)%Q → py_min a x = a.
Proof.
  intros Hax. unfold py_min.
  destruct (x ?= a)%Q eqn:Hc; try reflexivity.
  apply Qlt_alt in Hc. exfalso. apply (Qlt_irrefl x).
  eapply Qlt_le_trans; eauto.
Qed.

(** ** Dictionaries filled by a loop *)

Section dict_loops.
Context {V : Type} (f : string → V).

Lemma fill_lookup (keys : list string) (d : gmap string V) (k : string) :
  fill f d keys !! k = if decide (k ∈ keys) then Some (f k) else d !! k.
Proof.
  revert d. induction keys as [|k' keys IH]; intros d; simpl.
  - done.
  - rewrite IH. destruct (decide (k ∈ keys)) as [Hin|Hnin].
    + rewrite decide_True; [done | by right].
    + destruct (decide (k = k')) as [->|Hne].
      * rewrite lookup_insert_eq. rewrite decide_True; [done | by left].
      * rewrite lookup_insert_ne by done.
        rewrite decide_False; [done |].
        intros [?|?]%elem_of_cons; congruence.
Qed.

Lemma fill_dom (keys : list string) (d : gmap string V) :
  dom (fill f d keys) = list_to_set keys ∪ dom d.
Proof.
  apply set_eq. intros k. rewrite elem_of_dom, fill_lookup.
  rewrite elem_of_union, elem_of_list_to_set, elem_of_dom.
  case_decide; [split; eauto | tauto].
Qed.
End dict_loops.

Lemma fallback_lookup (input_text output_text : string) (metrics : list string)
    (metric : string) :
  metric ∈ metrics →
  _fallback_evaluation input_text output_text metrics !! metric
  = Some (fallback_score input_text output_text metric).
Proof.
  intros Hin. unfold _fallback_evaluation.
  change (foldl _ ∅ metrics)
    with (fill (fallback_score input_text output_text) ∅ metrics).
  rewrite fill_lookup. by rewrite decide_True.
Qed.

Lemma fallback_dom (input_text output_text : string) (metrics : list string) :
  dom (_fallback_evaluation input_text output_text metrics)
  = list_to_set metrics.
Proof.
  unfold _fallback_evaluation.
  change (foldl _ ∅ metrics)
    with (fill (fallback_score input_text output_text) ∅ metrics).
  by rewrite fill_dom, dom_empty_L, (right_id_L ∅ (∪)).
Qed.

Lemma neutral_lookup (metrics : list string) (metric : string) :
  metric ∈ metrics → neutral_scores metrics !! metric = Some (Fin (1 # 2)).
Proof.
  intros Hin. unfold neutral_scores.
  change (foldl _ ∅ metrics) with (fill (λ _, Fin (1 # 2)) ∅ metrics).
  rewrite fill_lookup. by rewrite decide_True.
Qed.

Lemma neutral_dom (metrics : list string) :
  dom (neutral_scores metrics) = list_to_set metrics.
Proof.
  unfold neutral_scores.
  change (foldl _ ∅ metrics) with (fill (λ _, Fin (1 # 2)) ∅ metrics).
  by rewrite fill_dom, dom_empty_L, (right_id_L ∅ (∪)).
Qed.

Lemma normalize_lookup (result_dict : gmap string pyfloat)
    (metrics : list string) (metric : string) :
  metric ∈ metrics →
  normalize result_dict metrics !! metric
  = Some (normalized_score result_dict metric).
Proof.
  intros Hin. unfold normalize.
  change (foldl _ ∅ metrics)
    with (fill (normalized_score result_dict) ∅ metrics).
  rewrite fill_lookup. by rewrite decide_True.
Qed.

Lemma normalize_dom (result_dict : gmap string pyfloat)
    (metrics : list string) :
  dom (normalize result_dict metrics) = list_to_set metrics.
Proof.
  unfold normalize.
  change (foldl _ ∅ metrics)
    with (fill (normalized_score result_dict) ∅ metrics).
  by rewrite fill_dom, dom_empty_L, (right_id_L ∅ (∪)).
Qed.

(** ** The scenarios of the specification *)

Example fallback_toxic :
  _fallback_evaluation "x" "I hate this, you idiot" ["toxicity"]
  = {[ "toxicity" := Fin (2 # 3) ]}.
Proof. vm_compute. reflexivity. Qed.

Example fallback_france :
  _fallback_evaluation "What is the capital of France?"
                       "Paris is the capital of France."
                       ["relevance"; "correctness"; "banana"]
  = <["relevance" := Fin (4 # 6)]>
      (<["correctness" := Fin (31 # 100)]> {[ "banana" := Fin (1 # 2) ]}).
Proof. vm_compute. reflexivity. Qed.

(** ** Substring containment *)

Lemma py_startswith_spec (w s : string) :
  py_startswith w s = true ↔ ∃ post, s = w +:+ post.
Proof.
  revert s. induction w as [|a w IH]; intros s; simpl.
  - split; [intros _; by exists s | done].
  - destruct s as [|b s].
    + split; [done | intros [post Hp]; discriminate].
    + rewrite andb_true_iff, IH. split.
      * intros [Hab [post ->]]. apply Ascii.eqb_eq in Hab as ->.
        by exists post.
      * intros [post Hp]. injection Hp as -> ->.
        split; [apply Ascii.eqb_refl | by exists post].
Qed.

Lemma py_contains_spec (w s : string) :
  py_contains w s = true ↔ is_substring w s.
Proof.
  unfold is_substring. induction s as [|b s IH]; simpl.
  - rewrite orb_false_r, py_startswith_spec. split.
    + intros [post Hp]. by exists "", post.
    + intros [pre [post Hp]].
      destruct pre; simpl in Hp; [by exists post | discriminate].
  - rewrite orb_true_iff, py_startswith_spec, IH. split.
    + intros [[post Hp] | [pre [post Hp]]].
      * by exists "", post.
      * exists (String b pre), post. simpl. by rewrite Hp.
    + intros [pre [post Hp]]. destruct pre as [|c pre]; simpl in Hp.
      * left. by exists post.
      * right. injection Hp as -> ->. by exists pre, post.
Qed.

(** ** Tokens *)

Lemma append_snoc (word : string) (c : ascii) (s : string) :
  (word +:+ String c "") +:+ s = word +:+ String c s.
Proof.
  induction word as [|a word IH]; [done|].
  change (String a ((word +:+ String c "") +:+ s)
          = String a (word +:+ String c s)).
  by f_equal.
Qed.

Lemma append_assoc (s1 s2 s3 : string) :
  (s1 +:+ s2) +:+ s3 = s1 +:+ (s2 +:+ s3).
Proof.
  induction s1 as [|a s1 IH]; [done|].
  change (String a ((s1 +:+ s2) +:+ s3) = String a (s1 +:+ (s2 +:+ s3))).
  by f_equal.
Qed.

(** Every token [str.split] gives is a piece of the string. *)
Lemma py_split_from_substring (word s t : string) :
  t ∈ py_split_from word s → is_substring t (word +:+ s).
Proof.
  revert word. induction s as [|c s IH]; intros word; simpl.
  - destruct (nonempty word); [|by intros ?%elem_of_nil].
    intros ->%list_elem_of_singleton. exists "", "".
    reflexivity.
  - assert (Hskip : is_substring t ("" +:+ s) →
                    is_substring t (word +:+ String c s)).
    { intros (pre & post & Hs). change ("" +:+ s) with s in Hs.
      exists (word +:+ String c pre), post. rewrite Hs.
      rewrite append_assoc. reflexivity. }
    destruct (py_isspace c).
    + destruct (nonempty word).
      * intros [->|Hin]%elem_of_cons; [|by apply Hskip, IH].
        exists "", (String c s). done.
      * intros Hin. by apply Hskip, IH.
    + intros Hin. apply IH in Hin. by rewrite append_snoc in Hin.
Qed.

Lemma py_split_substring (s t : string) :
  t ∈ py_split s → is_substring t s.
Proof. apply (py_split_from_substring "" s t). Qed.

Lemma no_whitespace_snoc (word : string) (c : ascii) :
  no_whitespace (word +:+ String c "")
  = no_whitespace word && negb (py_isspace c).
Proof.
  induction word as [|a word IH].
  - change (negb (py_isspace c) && true = true && negb (py_isspace c)).
    by rewrite andb_true_r.
  - change (negb (py_isspace a) && no_whitespace (word +:+ String c "")
            = negb (py_isspace a) && no_whitespace word
              && negb (py_isspace c)).
    by rewrite IH, andb_assoc.
Qed.

(** What [str.split] gives are tokens: not empty, free of whitespace. *)
Lemma py_split_from_tokens (word s t : string) :
  no_whitespace word = true → t ∈ py_split_from word s → is_token t.
Proof.
  revert word. induction s as [|c s IH]; intros word Hword; simpl.
  - destruct word as [|a word]; simpl; [by intros ?%elem_of_nil|].
    intros ->%list_elem_of_singleton. by split.
  - destruct (py_isspace c) eqn:Hc.
    + destruct word as [|a word]; simpl; [by apply IH|].
      intros [->|Hin]%elem_of_cons; [by split | by apply (IH "")].
    + apply IH. by rewrite no_whitespace_snoc, Hword, Hc.
Qed.

Lemma py_split_tokens (s t : string) : t ∈ py_split s → is_token t.
Proof. by apply py_split_from_tokens. Qed.

Lemma filter_length_le {A} (P Q : A → Prop) `{!∀ x, Decision (P x)}
    `{!∀ x, Decision (Q x)} (l : list A) :
  (∀ x, P x → Q x) → length (filter P l) ≤ length (filter Q l).
Proof.
  intros HPQ. induction l as [|x l IH]; simpl; [done|].
  rewrite !filter_cons. destruct (decide (P x)) as [HP|HP].
  - rewrite decide_True by auto. simpl. lia.
  - destruct (decide (Q x)); simpl; lia.
Qed.

(** A word that is a token of the output is also found inside it: the count
    by tokens never exceeds the count of the code. *)
Lemma toxic_token_count_le (output_text : string) :
  toxic_token_count output_text ≤ toxic_count output_text.
Proof.
  unfold toxic_token_count, toxic_count. apply filter_length_le.
  intros word Hin. by apply py_contains_spec, py_split_substring.
Qed.

(** ** Ratios of integers *)

Lemma int_ratio_le (a b : nat) (d : Z) :
  (0 < d)%Z → (a ≤ b)%nat →
  (inject_Z (Z.of_nat a) / inject_Z d <= inject_Z (Z.of_nat b) / inject_Z d)%Q.
Proof.
  intros Hd Hab. unfold Qdiv. apply Qmult_le_compat_r.
  - rewrite <- Zle_Qle. lia.
  - apply Qinv_le_0_compat. change 0%Q with (inject_Z 0). rewrite <- Zle_Qle. lia.
Qed.

(** ** The fallback scorer *)

(** C8. When 'correctness' is requested, the fallback score stored under it
    is min(1, len(output_text) / 100); it does not decrease when the output
    gets longer, and it is exactly 1 for every output of 100 characters or
    more. *)
Theorem fallback_correctness (input_text output_text output_text' : string)
    (metrics : list string) :
  "correctness" ∈ metrics →
  ∃ s s' : Q,
    _fallback_evaluation input_text output_text metrics !! "correctness"
      = Some (Fin s)
    ∧ _fallback_evaluation input_text output_text' metrics !! "correctness"
      = Some (Fin s')
    ∧ s = Qmin 1 (inject_Z (Z.of_nat (String.length output_text)) / 100)
    ∧ ((String.length output_text ≤ String.length output_text')%nat → (s <= s')%Q)
    ∧ ((100 ≤ String.length output_text)%nat → s = 1%Q).
Proof.
  intros Hin. eexists _, _.
  split; [by rewrite fallback_lookup|].
  split; [by rewrite fallback_lookup|].
  split; [apply py_min_Qmin|]. split.
  - intros Hlen. apply py_min_le_mono. by apply (int_ratio_le _ _ 100).
  - intros Hlen. apply py_min_saturates.
    unfold Qdiv. apply Qle_shift_div_l; [reflexivity|].
    change (1 * 100)%Q with (inject_Z 100). rewrite <- Zle_Qle. lia.
Qed.

Lemma fallback_correctness_witness :
  "correctness" ∈ ["correctness"]
  ∧ ∃ s s' : Q,
      _fallback_evaluation "q" "Paris" ["correctness"] !! "correctness"
        = Some (Fin s)
      ∧ _fallback_evaluation "q" "Paris, France" ["correctness"] !! "correctness"
        = Some (Fin s')
      ∧ s = Qmin 1 (inject_Z (Z.of_nat (String.length "Paris")) / 100)
      ∧ ((String.length "Paris" ≤ String.length "Paris, France")%nat
         → (s <= s')%Q)
      ∧ ((100 ≤ String.length "Paris")%nat → s = 1%Q).
Proof.
  assert (Hin : "correctness" ∈ ["correctness"])
    by (apply (bool_decide_unpack _); vm_compute; exact I).
  split; [exact Hin|].
  exact (fallback_correctness "q" "Paris" "Paris, France" ["correctness"] Hin).
Defined.

(** C7. When 'relevance' is requested, the fallback score stored under it is
    min(1, |I ∩ O| / max(|I|, 1)) for the token sets I and O of the
    lower-cased, whitespace-split input and output; and when O shares no
    token with I, the score of the input against itself is at least the
    score of the input against the output. *)
Theorem fallback_relevance (input_text output_text : string)
    (metrics : list string) :
  "relevance" ∈ metrics →
  let I := py_set (py_split (py_lower input_text)) in
  let O := py_set (py_split (py_lower output_text)) in
  _fallback_evaluation input_text output_text metrics !! "relevance"
  = Some (Fin (Qmin 1 (inject_Z (Z.of_nat (size (I ∩ O)))
                       / inject_Z (Z.of_nat (size I `max` 1)))))
  ∧ (I ## O →
     ∃ xy xx : Q,
       _fallback_evaluation input_text output_text metrics !! "relevance"
         = Some (Fin xy)
       ∧ _fallback_evaluation input_text input_text metrics !! "relevance"
         = Some (Fin xx)
       ∧ (xy <= xx)%Q).
Proof.
  intros Hin I O. split.
  - rewrite fallback_lookup by done. unfold fallback_score; simpl.
    by rewrite py_min_Qmin.
  - intros Hdisj. eexists _, _.
    split; [by rewrite fallback_lookup|].
    split; [by rewrite fallback_lookup|].
    apply py_min_le_mono. unfold relevance_ratio. fold I O.
    apply int_ratio_le; [lia|].
    apply disjoint_intersection_L in Hdisj. rewrite Hdisj, size_empty. lia.
Qed.

Lemma fallback_relevance_witness :
  let I := py_set (py_split (py_lower "What is  Rocq")) in
  let O := py_set (py_split (py_lower "a proof assistant")) in
  "relevance" ∈ ["relevance"]
  ∧ I ## O
  ∧ _fallback_evaluation "What is  Rocq" "a proof assistant" ["relevance"]
      !! "relevance"
    = Some (Fin (Qmin 1 (inject_Z (Z.of_nat (size (I ∩ O)))
                         / inject_Z (Z.of_nat (size I `max` 1)))))
  ∧ ∃ xy xx : Q,
      _fallback_evaluation "What is  Rocq" "a proof assistant" ["relevance"]
        !! "relevance" = Some (Fin xy)
      ∧ _fallback_evaluation "What is  Rocq" "What is  Rocq" ["relevance"]
        !! "relevance" = Some (Fin xx)
      ∧ (xy <= xx)%Q.
Proof.
  intros I O.
  assert (Hin : "relevance" ∈ ["relevance"])
    by (apply (bool_decide_unpack _); vm_compute; exact Logic.I).
  assert (Hdisj : I ## O)
    by (apply disjoint_intersection_L; vm_compute; reflexivity).
  pose proof (fallback_relevance "What is  Rocq" "a proof assistant"
                                 ["relevance"] Hin) as [Hscore Hord].
  split; [exact Hin|]. split; [exact Hdisj|].
  split; [exact Hscore | exact (Hord Hdisj)].
Defined.

Example relevance_disjoint_tokens :
  py_set (py_split (py_lower "What is  Rocq"))
  ## py_set (py_split (py_lower "a proof assistant")).
Proof. apply disjoint_intersection_L. vm_compute. reflexivity. Qed.

Example relevance_self :
  _fallback_evaluation "What is  Rocq" "What IS rocq" ["relevance"]
  = {[ "relevance" := Fin 1 ]}.
Proof. vm_compute. reflexivity. Qed.

Example split_lower_example :
  py_split (py_lower "  Paris IS	the  Capital ") = ["paris"; "is"; "the"; "capital"].
Proof. vm_compute. reflexivity. Qed.

(** C9, as stated, fails: for the output "skill" no token is a word of the
    list, so a count by tokens gives the score 0, while the code finds
    'kill' inside 'skill' and gives 1/3. *)
Lemma toxicity_not_by_tokens :
  ¬ (∀ output_text : string,
       ∃ q : Q,
         _fallback_evaluation "" output_text ["toxicity"] !! "toxicity"
           = Some (Fin q)
         ∧ (q == Qmin 1 (inject_Z (Z.of_nat (toxic_token_count output_text)) / 3))%Q).
Proof.
  intros Hclaim. destruct (Hclaim "skill") as [q [Hq Heq]].
  vm_compute in Hq. injection Hq as <-.
  vm_compute in Heq. discriminate Heq.
Qed.

(** C9, amended. When 'toxicity' is requested, the fallback score stored
    under it is min(1, n / 3), where n is the number of words of the fixed
    list ('hate', 'stupid', 'idiot', 'kill', 'die', 'worst') that occur as
    substrings of the lower-cased output, each word counted once (so n is
    at least the number of list words that are tokens of it); for the
    output "I hate this, you idiot" the score is 2/3. *)
Theorem fallback_toxicity (input_text output_text : string)
    (metrics : list string) :
  "toxicity" ∈ metrics →
  (∃ matched : list string,
     NoDup matched
     ∧ (∀ word, word ∈ matched
                ↔ word ∈ toxic_words ∧ is_substring word (py_lower output_text))
     ∧ toxic_token_count output_text ≤ length matched
     ∧ _fallback_evaluation input_text output_text metrics !! "toxicity"
       = Some (Fin (Qmin 1 (inject_Z (Z.of_nat (length matched)) / 3))))
  ∧ _fallback_evaluation input_text "I hate this, you idiot" metrics
      !! "toxicity" = Some (Fin (2 # 3)).
Proof.
  intros Hin. split.
  - exists (filter (λ word, py_contains word (py_lower output_text) = true)
                   toxic_words).
    split; [|split; [|split]].
    + apply NoDup_filter. apply (bool_decide_unpack _). vm_compute. exact I.
    + intros word. rewrite list_elem_of_filter, py_contains_spec. tauto.
    + apply toxic_token_count_le.
    + rewrite fallback_lookup by done. unfold fallback_score; simpl.
      by rewrite py_min_Qmin.
  - rewrite fallback_lookup by done. vm_compute. reflexivity.
Qed.

Lemma fallback_toxicity_witness :
  "toxicity" ∈ ["toxicity"]
  ∧ (∃ matched : list string,
       NoDup matched
       ∧ (∀ word, word ∈ matched
                  ↔ word ∈ toxic_words ∧ is_substring word (py_lower "Skill"))
       ∧ toxic_token_count "Skill" ≤ length matched
       ∧ _fallback_evaluation "" "Skill" ["toxicity"] !! "toxicity"
         = Some (Fin (Qmin 1 (inject_Z (Z.of_nat (length matched)) / 3))))
  ∧ _fallback_evaluation "" "I hate this, you idiot" ["toxicity"]
      !! "toxicity" = Some (Fin (2 # 3)).
Proof.
  assert (Hin : "toxicity" ∈ ["toxicity"])
    by (apply (bool_decide_unpack _); vm_compute; exact I).
  split; [exact Hin|].
  exact (fallback_toxicity "" "Skill" ["toxicity"] Hin).
Defined.

Example toxicity_skill :
  _fallback_evaluation "" "Skill" ["toxicity"] = {[ "toxicity" := Fin (1 # 3) ]}
  ∧ toxic_token_count "Skill" = 0%nat.
Proof. split; vm_compute; reflexivity. Qed.

Example toxicity_counts_words_once :
  _fallback_evaluation "" "hate hate hate hate" ["toxicity"]
  = {[ "toxicity" := Fin (1 # 3) ]}.
Proof. vm_compute. reflexivity. Qed.

Example toxicity_saturates :
  _fallback_evaluation "" "the worst: stupid idiot, I hate it" ["toxicity"]
  = {[ "toxicity" := Fin 1 ]}.
Proof. vm_compute. reflexivity. Qed.

(** ** Result normalisation *)

(** The chain of comparisons of the loop reads the record under the name
    that the table of [__init__] gives to the metric. *)
Lemma supported_lookup_other (metric : string) :
  metric ∉ ["relevance"; "correctness"; "similarity"; "faithfulness";
            "helpfulness"; "clarity"] →
  supported_ragas_metrics !! metric = None.
Proof.
  intros Hnot. unfold supported_ragas_metrics.
  apply not_elem_of_list_to_map_1. exact Hnot.
Qed.

Lemma engine_value_native (result_dict : gmap string pyfloat) (metric : string) :
  engine_value result_dict metric = native_value result_dict metric.
Proof.
  unfold engine_value, native_value.
  assert (Hdom : ∀ key, bool_decide (key ∈ dom result_dict) = false →
                        result_dict !! key = None).
  { intros key Hk. apply bool_decide_eq_false in Hk.
    by apply not_elem_of_dom in Hk. }
  repeat match goal with
  | |- context [bool_decide (metric = ?s)] =>
      destruct (bool_decide_reflect (metric = s)) as [->|?]
  end;
  rewrite ?andb_true_l, ?andb_false_l;
  try match goal with
  | |- context [supported_ragas_metrics !! ?s] =>
      assert_fails (is_var s);
      let v := eval vm_compute in (supported_ragas_metrics !! s) in
      change (supported_ragas_metrics !! s) with v
  end;
  repeat match goal with
  | |- context [bool_decide (?k ∈ dom result_dict)] =>
      let H := fresh in
      destruct (bool_decide (k ∈ dom result_dict)) eqn:H;
      [|apply Hdom in H]
  end; try reflexivity; try (symmetry; assumption).
  rewrite supported_lookup_other; [reflexivity|].
  rewrite !elem_of_cons, elem_of_nil. intuition congruence.
Qed.

(** C4. For every record of the engine and every requested metric, the
    score is 0 when the record has no value under the metric's
    engine-native name, 7/10 when that value is not-a-number, and the value
    itself, whatever its size, otherwise; the score of a metric depends on
    the record only through that one value. *)
Theorem normalize_scores (result_dict : gmap string pyfloat)
    (metrics : list string) (metric : string) :
  metric ∈ metrics →
  (native_value result_dict metric = None →
   normalize result_dict metrics !! metric = Some (Fin 0))
  ∧ (native_value result_dict metric = Some NaN →
     normalize result_dict metrics !! metric = Some (Fin (7 # 10)))
  ∧ (∀ value, native_value result_dict metric = Some value →
              isnan value = false →
              normalize result_dict metrics !! metric = Some value)
  ∧ (∀ result_dict' : gmap string pyfloat,
       native_value result_dict' metric = native_value result_dict metric →
       normalize result_dict' metrics !! metric
       = normalize result_dict metrics !! metric).
Proof.
  intros Hin. repeat split.
  - intros Hv. rewrite normalize_lookup by done.
    unfold normalized_score. by rewrite engine_value_native, Hv.
  - intros Hv. rewrite normalize_lookup by done.
    unfold normalized_score. by rewrite engine_value_native, Hv.
  - intros value Hv Hnan. rewrite normalize_lookup by done.
    unfold normalized_score. by rewrite engine_value_native, Hv, Hnan.
  - intros result_dict' Hv. rewrite !normalize_lookup by done.
    unfold normalized_score. by rewrite !engine_value_native, Hv.
Qed.

Lemma normalize_scores_witness :
  let result_dict : gmap string pyfloat :=
    <["answer_relevancy" := NaN]> {[ "faithfulness" := Fin (5 # 4) ]} in
  let metrics := ["relevance"; "faithfulness"; "similarity"] in
  "faithfulness" ∈ metrics
  ∧ native_value result_dict "faithfulness" = Some (Fin (5 # 4))
  ∧ normalize result_dict metrics !! "faithfulness" = Some (Fin (5 # 4)).
Proof.
  intros result_dict metrics.
  assert (Hin : "faithfulness" ∈ metrics)
    by (apply (bool_decide_unpack _); vm_compute; exact I).
  assert (Hv : native_value result_dict "faithfulness" = Some (Fin (5 # 4)))
    by (vm_compute; reflexivity).
  split; [exact Hin|]. split; [exact Hv|].
  exact (proj1 (proj2 (proj2 (normalize_scores result_dict metrics
                                               "faithfulness" Hin)))
               (Fin (5 # 4)) Hv eq_refl).
Defined.

Example normalize_nan_and_siblings :
  normalize (<["answer_relevancy" := NaN]> {[ "faithfulness" := Fin (5 # 4) ]})
            ["relevance"; "faithfulness"; "similarity"; "toxicity"; "banana"]
  = <["relevance" := Fin (7 # 10)]>
      (<["faithfulness" := Fin (5 # 4)]>
         (<["similarity" := Fin 0]>
            (<["toxicity" := Fin 0]> {[ "banana" := Fin 0 ]}))).
Proof. vm_compute. reflexivity. Qed.


(** ** Rules of the program logic *)

Section hoare_rules.
Context {A B : Type}.
Implicit Types (P I : state → Prop).

Lemma hoare_conseq P P' (m : M A) (Q Q' : result A → state → Prop) :
  hoare P' m Q' →
  (∀ st, P st → P' st) →
  (∀ r st, Q' r st → Q r st) →
  hoare P m Q.
Proof. unfold hoare. intros Hm HP HQ st Hst. auto. Qed.

Lemma hoare_ret P (a : A) (Q : result A → state → Prop) :
  (∀ st, P st → Q (Ok a) st) → hoare P (mret a) Q.
Proof. unfold hoare. intros HQ st Hst. by apply HQ. Qed.

Lemma hoare_raise P (e : exn) (Q : result A → state → Prop) :
  (∀ st, P st → Q (Raise e) st) → hoare P (raise e) Q.
Proof. unfold hoare. intros HQ st Hst. by apply HQ. Qed.

Lemma hoare_lift P (r : result A) (Q : result A → state → Prop) :
  (∀ st, P st → Q r st) → hoare P (lift r) Q.
Proof. unfold hoare. intros HQ st Hst. by apply HQ. Qed.

Lemma hoare_bind P (m : M A) (k : A → M B)
    (R : result A → state → Prop) (Q : result B → state → Prop) :
  hoare P m R →
  (∀ a, hoare (R (Ok a)) (k a) Q) →
  (∀ e st, R (Raise e) st → Q (Raise e) st) →
  hoare P (m ≫= k) Q.
Proof.
  unfold hoare. intros Hm Hk He st Hst. specialize (Hm st Hst).
  unfold mbind, M_bind, bind. destruct (m st) as [[a|e] st1]; simpl in *.
  - by apply Hk.
  - by apply He.
Qed.

Lemma hoare_try_except P (body : M A) (handler : exn → M A)
    (R Q : result A → state → Prop) :
  hoare P body R →
  (∀ a st, R (Ok a) st → Q (Ok a) st) →
  (∀ e, hoare (R (Raise e)) (handler e) Q) →
  hoare P (try_except body handler) Q.
Proof.
  unfold hoare. intros Hm Hok Hh st Hst. specialize (Hm st Hst).
  unfold try_except. destruct (body st) as [[a|e] st1]; simpl in *.
  - by apply Hok.
  - by apply Hh.
Qed.

Lemma stable_bind I (m : M A) (k : A → M B) :
  stable I m → (∀ a, stable I (k a)) → stable I (m ≫= k).
Proof.
  intros Hm Hk. eapply hoare_bind; [exact Hm | exact Hk | auto].
Qed.

Lemma stable_try_except I (body : M A) (handler : exn → M A) :
  stable I body → (∀ e, stable I (handler e)) →
  stable I (try_except body handler).
Proof.
  intros Hm Hh. eapply hoare_try_except; [exact Hm | auto | exact Hh].
Qed.

Lemma stable_ret I (a : A) : stable I (mret a).
Proof. by apply hoare_ret. Qed.

Lemma stable_raise I (e : exn) : stable (A := A) I (raise e).
Proof. by apply hoare_raise. Qed.

Lemma stable_lift I (r : result A) : stable I (lift r).
Proof. by apply hoare_lift. Qed.
End hoare_rules.

Lemma stable_import I (w : world) (m : pymodule) : stable I (import_ w m).
Proof.
  unfold import_. destruct (importable w m);
    [apply (stable_ret (A := unit)) | apply stable_raise].
Qed.

Lemma stable_getitem {V} I (d : gmap string V) (key : string) :
  stable I (getitem d key).
Proof.
  unfold getitem. destruct (d !! key); [apply stable_ret | apply stable_raise].
Qed.

(** Steps that touch the heap only. *)
Section heap_steps.
Context (E : gmap string string)
        (C : list (list dataset_row * list metric_obj)).

Lemma unchanged_alloc (o : metric_obj) : stable (unchanged E C) (alloc o).
Proof. intros st [HE HC]. by split. Qed.

Lemma unchanged_deref (l : loc) : stable (unchanged E C) (deref l).
Proof.
  intros st [HE HC]. unfold deref. by destruct (heap st !! l).
Qed.

Lemma unchanged_store (l : loc) (o : metric_obj) :
  stable (unchanged E C) (store l o).
Proof. intros st [HE HC]. by split. Qed.

Lemma unchanged_instantiate (w : world) (ragas_metric : ragas_export) :
  stable (unchanged E C) (instantiate w ragas_metric).
Proof.
  unfold instantiate. destruct (ragas_metrics_exports w ragas_metric).
  - apply unchanged_alloc.
  - apply stable_ret.
Qed.

Lemma unchanged_configure (w : world) (llm_h : handle) (emb : option handle)
    (metric_instance : loc) :
  stable (unchanged E C) (configure w llm_h emb metric_instance).
Proof.
  unfold configure.
  repeat first
    [ apply stable_bind; [|intros ?]
    | apply unchanged_deref | apply unchanged_store
    | apply stable_lift | apply stable_ret
    | match goal with
      | |- stable _ (if ?b then _ else _) => destruct b
      | |- stable _ (match ?o with Some _ => _ | None => _ end) => destruct o
      end ].
Qed.

Lemma unchanged_bind_metrics (w : world) (llm_h : handle)
    (emb : option handle) (metrics : list string)
    (supported_metrics : list loc) (bound : bool) :
  stable (unchanged E C)
         (bind_metrics w llm_h emb metrics supported_metrics bound).
Proof.
  revert supported_metrics bound.
  induction metrics as [|metric rest IH]; intros supported_metrics bound;
    simpl.
  - apply stable_ret.
  - destruct (ragas_metric_map !! metric) as [[ragas_metric|]|]; try apply IH.
    repeat first
      [ apply IH
      | apply stable_import | apply unchanged_instantiate
      | apply unchanged_configure
      | apply stable_bind; [|intros ?] ].
Qed.

Lemma unchanged_default_metrics (w : world) (llm_h : handle)
    (emb : option handle) (bound : bool) :
  stable (unchanged E C) (default_metrics w llm_h emb bound).
Proof.
  unfold default_metrics.
  repeat first
    [ apply unchanged_instantiate | apply unchanged_configure
    | apply stable_ret | apply stable_raise
    | match goal with
      | |- stable _ (if ?b then _ else _) => destruct b
      end
    | apply stable_bind; [|intros ?] ].
Qed.

Lemma unchanged_make_llm (w : world) (provider_type : string)
    (llm_config : gmap string string) :
  stable (unchanged E C) (make_llm w provider_type llm_config).
Proof.
  unfold make_llm.
  repeat first
    [ apply stable_try_except; [|intros ?]
    | apply stable_bind; [|intros ?]
    | apply stable_import | apply stable_lift
    | apply stable_ret | apply stable_raise ].
Qed.

Lemma unchanged_make_embeddings (w : world) (provider_type : string)
    (llm_config params : gmap string string) :
  stable (unchanged E C) (make_embeddings w provider_type llm_config params).
Proof.
  unfold make_embeddings.
  apply stable_try_except; [|intros ?; apply stable_ret].
  case_decide; [|apply stable_ret].
  repeat first
    [ apply stable_try_except; [|intros ?]
    | apply stable_bind; [|intros ?]
    | apply stable_import | apply stable_lift | apply stable_getitem
    | apply stable_ret | apply stable_raise ].
Qed.
End heap_steps.


(** ** [_run_ragas_async] *)

Lemma run_ragas_async_spec (w : world) (input_text output_text : string)
    (metrics : list string) (params : gmap string string)
    (E : gmap string string)
    (C : list (list dataset_row * list metric_obj)) :
  hoare (unchanged E C)
        (_run_ragas_async w input_text output_text metrics params)
        (λ r st', environ st' = E
                  ∧ async_post w input_text output_text metrics C r st').
Proof.
  unfold _run_ragas_async.
  repeat first
    [ eapply (hoare_bind _ _ _ (λ _, unchanged E C));
      [ first [ apply stable_import | apply stable_lift
              | apply unchanged_make_llm | apply unchanged_make_embeddings
              | apply unchanged_bind_metrics
              | match goal with
                | |- hoare _ (match ?l with [] => _ | _ :: _ => _ end) _ =>
                    destruct l;
                    [apply unchanged_default_metrics | apply stable_ret]
                end ]
      | intros ?
      | intros e st [HE HC]; split; [done | left; eauto] ]
    | match goal with
      | |- hoare _ (let '(_, _) := ?p in _) _ => destruct p
      end ].
  intros st [HE HC]. unfold mbind, M_bind, bind; simpl.
  match goal with
  | |- context [ev_ragas w ?d ?bm] =>
      destruct (ev_ragas w d bm) as [[|rd rs]|e] eqn:Hev
  end; simpl;
    (split; [done|]; right; eexists _, _; split; [by rewrite HC|];
     unfold engine_outcome; simpl; by rewrite Hev).
Qed.


(** ** [_run_ragas_sync] and the process environment *)

(** The assignments of lines 75-85 either all succeed, and [env_vars_set]
    names the variables assigned, or the first value with a NUL character
    stops them with [ValueError]; variables that are not assigned keep
    their value. *)
Lemma set_provider_environment_spec (params : gmap string string)
    (E : gmap string string)
    (C : list (list dataset_row * list metric_obj)) :
  hoare (unchanged E C) (set_provider_environment params)
        (λ r st', r = (if settable params
                       then Ok (provider_variables params)
                       else Raise ValueError)
                  ∧ engine_calls st' = C
                  ∧ ∀ var, var ∉ provider_variables params →
                           environ st' !! var = E !! var).
Proof.
  intros st [HE HC].
  unfold set_provider_environment, provider_variables, settable.
  cbn [forallb].
  unfold mbind, M_bind, bind, environ_set.
  destruct (params !! "langfuse.azure_api_key") as [v1|];
    destruct (params !! "langfuse.azure_endpoint") as [v2|];
    destruct (params !! "langfuse.model_version") as [v3|];
    try destruct (has_nul v1); try destruct (has_nul v2);
    try destruct (has_nul v3); simpl;
    (rewrite ?decide_True by eauto);
    (rewrite ?decide_False by (intros [? ?]; discriminate)); simpl;
    (split; [reflexivity|]; split; [exact HC|]);
    intros var Hvar; rewrite ?lookup_insert_ne, HE; try done;
    intros <-; apply Hvar; set_solver.
Qed.

(** The environment after lines 75-85, whether or not they raise: what was
    assigned before the first value with a NUL character stays assigned. *)
Lemma set_provider_environment_assign (params : gmap string string)
    (st : state) :
  environ (set_provider_environment params st).2
  = assign (environ st) (provider_assignments params)
  ∧ engine_calls (set_provider_environment params st).2 = engine_calls st
  ∧ heap (set_provider_environment params st).2 = heap st.
Proof.
  unfold set_provider_environment, provider_assignments.
  unfold mbind, M_bind, bind, environ_set.
  destruct (params !! "langfuse.azure_api_key") as [v1|];
    destruct (params !! "langfuse.azure_endpoint") as [v2|];
    destruct (params !! "langfuse.model_version") as [v3|];
    cbn [app assign];
    try destruct (has_nul v1); try destruct (has_nul v2);
    try destruct (has_nul v3); done.
Qed.

Lemma clean_up_environment_spec (env_vars_set : list string)
    (C : list (list dataset_row * list metric_obj)) (st : state) :
  let st' := (clean_up_environment env_vars_set st).2 in
  (clean_up_environment env_vars_set st).1 = Ok tt
  ∧ engine_calls st' = engine_calls st
  ∧ heap st' = heap st
  ∧ ∀ var, environ st' !! var
           = if decide (var ∈ env_vars_set) then None else environ st !! var.
Proof.
  revert st. induction env_vars_set as [|v vars IH]; intros st; simpl.
  - repeat split; try done.
  - unfold mbind, M_bind, bind, environ_pop; simpl.
    destruct (IH (State (delete v (environ st)) (heap st) (engine_calls st)))
      as (Hr & Hc & Hh & He).
    destruct (clean_up_environment vars _) as [r st'] eqn:Hrun; simpl in *.
    subst r. repeat split; try done.
    intros var. rewrite He.
    destruct (decide (var ∈ vars)) as [Hin|Hnin].
    + rewrite decide_True; [done | by right].
    + destruct (decide (var = v)) as [->|Hne].
      * rewrite lookup_delete_eq. rewrite decide_True; [done | by left].
      * rewrite lookup_delete_ne by done. rewrite decide_False; [done|].
        intros [?|?]%elem_of_cons; congruence.
Qed.

(** [_run_ragas_sync] leaves every variable it does not assign as it was.
    When every value can be written, the variables it set are absent from
    the environment afterwards on every exit path of the [try]; a value
    with a NUL character raises before the [try], and what was assigned
    before it is not removed.  The outcome is that of [_run_ragas_async],
    or an exception before the engine is reached. *)
Lemma run_ragas_sync_spec (w : world) (input_text output_text : string)
    (metrics : list string) (params : gmap string string)
    (E : gmap string string)
    (C : list (list dataset_row * list metric_obj)) :
  hoare (unchanged E C)
        (_run_ragas_sync w input_text output_text metrics params)
        (λ r st',
           (∀ var, var ∉ provider_variables params →
                   environ st' !! var = E !! var)
           ∧ (settable params = true →
              ∀ var, var ∈ provider_variables params →
                     environ st' !! var = None)
           ∧ async_post w input_text output_text metrics C r st').
Proof.
  intros st Hst. unfold _run_ragas_sync, mbind, M_bind, bind.
  pose proof (set_provider_environment_spec params E C st Hst) as Hset.
  destruct (set_provider_environment params st) as [r1 st1]; simpl in Hset.
  destruct Hset as (-> & HC1 & HE1).
  destruct (settable params); simpl;
    [| split; [exact HE1|]; split; [discriminate|]; left; eauto].
  unfold try_finally, try_except.
  pose proof (run_ragas_async_spec w input_text output_text metrics params
                (environ st1) C st1 (conj eq_refl HC1)) as Hrun.
  destruct (_run_ragas_async w input_text output_text metrics params st1)
    as [r2 st2]; simpl in Hrun. destruct Hrun as [HE2 Hpost].
  assert (Hbody : (match r2 with
                   | Ok a => (Ok a, st2)
                   | Raise e => raise e st2
                   end) = (r2, st2)) by (by destruct r2).
  destruct r2 as [a|e]; simpl;
    pose proof (clean_up_environment_spec (provider_variables params) C st2)
      as (Hr & Hc & _ & He);
    destruct (clean_up_environment (provider_variables params) st2)
      as [r3 st3]; simpl in *; subst r3; simpl;
    (split;
     [ intros var Hvar; rewrite He, HE2; rewrite decide_False by done;
       by apply HE1
     | split;
       [ intros _ var Hvar; rewrite He; by rewrite decide_True
       | destruct Hpost as [[Hcalls Hr]|(ctxs & bm & Hcalls & Hout)];
         [ left; split; [congruence | done]
         | right; exists ctxs, bm; split; [congruence | done] ] ] ]).
Qed.


(** ** [evaluate] *)

Lemma async_post_evaluate (w : world) (input_text output_text : string)
    (metrics : list string)
    (C : list (list dataset_row * list metric_obj))
    (r : result (gmap string pyfloat)) (st' : state) :
  async_post w input_text output_text metrics C r st' →
  evaluate_post w input_text output_text metrics C
    (match r with
     | Ok a => Ok a
     | Raise _ => Ok (_fallback_evaluation input_text output_text metrics)
     end) st'.
Proof.
  intros [[Hcalls [e ->]]|(ctxs & bm & Hcalls & Hout)].
  - by left.
  - right. exists ctxs, bm. split; [done|].
    unfold engine_outcome in Hout. unfold engine_scores.
    destruct (ev_ragas w _ _) as [[|rd rs]|e]; by subst r.
Qed.

Lemma evaluate_spec (w : world) (input_text output_text : string)
    (metrics : list string) (params : gmap string string)
    (C : list (list dataset_row * list metric_obj)) (st : state) :
  engine_calls st = C →
  evaluate_post w input_text output_text metrics C
    (evaluate w input_text output_text metrics params st).1
    (evaluate w input_text output_text metrics params st).2.
Proof.
  intros HC. unfold evaluate, try_except, mbind, M_bind, bind, detect_uvloop.
  destruct (get_event_loop w) as [loop_type|e]; simpl.
  - destruct (py_contains "uvloop" loop_type).
    + pose proof (run_ragas_sync_spec w input_text output_text metrics params
                    (environ st) C st (conj eq_refl HC)) as (_ & _ & Hpost).
      apply async_post_evaluate in Hpost.
      destruct (_run_ragas_sync w input_text output_text metrics params st)
        as [[a|e] st']; simpl in *; [done | by destruct e].
    + pose proof (run_ragas_async_spec w input_text output_text metrics params
                    (environ st) C st (conj eq_refl HC)) as [_ Hpost].
      apply async_post_evaluate in Hpost.
      destruct (_run_ragas_async w input_text output_text metrics params st)
        as [[a|e] st']; simpl in *; [done | by destruct e].
  - destruct e; simpl;
      try (left; by split);
      pose proof (run_ragas_async_spec w input_text output_text metrics params
                    (environ st) C st (conj eq_refl HC)) as [_ Hpost];
      apply async_post_evaluate in Hpost;
      destruct (_run_ragas_async w input_text output_text metrics params st)
        as [[a|e] st']; simpl in *; [done | by destruct e].
Qed.

Lemma engine_scores_dom (w : world) (input_text output_text : string)
    (metrics : list string) (call : list dataset_row * list metric_obj) :
  dom (engine_scores w input_text output_text metrics call)
  = list_to_set metrics.
Proof.
  unfold engine_scores. destruct (ev_ragas w _ _) as [[|rd rs]|e].
  - apply fallback_dom.
  - apply normalize_dom.
  - apply neutral_dom.
Qed.

(** C1. For every world of collaborators, every state and all arguments,
    [evaluate] returns a mapping (it raises nothing), and the keys of the
    mapping are exactly the requested metric names. *)
Theorem evaluate_total (w : world) (input_text output_text : string)
    (metrics : list string) (params : gmap string string) (st : state) :
  ∃ scores : gmap string pyfloat,
    (evaluate w input_text output_text metrics params st).1 = Ok scores
    ∧ dom scores = list_to_set metrics.
Proof.
  destruct (evaluate_spec w input_text output_text metrics params
              (engine_calls st) st eq_refl)
    as [[_ Hr]|(ctxs & bm & _ & Hr)]; rewrite Hr; eexists; split; try done.
  - apply fallback_dom.
  - apply engine_scores_dom.
Qed.


(** ** Failure of the engine call *)

Lemma app_singleton_inv {A} (C : list A) (x y : A) :
  C ++ [x] = C ++ [y] → x = y.
Proof. intros H. apply app_inv_head in H. by injection H. Qed.

Lemma app_singleton_neq {A} (C : list A) (x : A) : C ≠ C ++ [x].
Proof.
  intros H. apply (f_equal length) in H. rewrite length_app in H.
  simpl in H. lia.
Qed.

(** C3. When the call to the engine raises, [evaluate] returns 0.5 under
    every requested metric name and nothing else; this mapping is not the
    one the fallback scorer computes (they differ, for instance, on
    'correctness' for a long output). *)
Theorem engine_failure_neutral (w : world) (input_text output_text : string)
    (metrics : list string) (params : gmap string string) (st : state)
    (call : list dataset_row * list metric_obj) (e : exn) :
  engine_calls (evaluate w input_text output_text metrics params st).2
  = engine_calls st ++ [call] →
  ev_ragas w call.1 call.2 = Raise e →
  (evaluate w input_text output_text metrics params st).1
  = Ok (neutral_scores metrics)
  ∧ (∀ metric, metric ∈ metrics →
               neutral_scores metrics !! metric = Some (Fin (1 # 2)))
  ∧ dom (neutral_scores metrics) = list_to_set metrics
  ∧ neutral_scores ["toxicity"]
    ≠ _fallback_evaluation "" "I hate this, you idiot" ["toxicity"].
Proof.
  intros Hcalls Hraise.
  split; [|split; [|split]].
  - destruct (evaluate_spec w input_text output_text metrics params
                (engine_calls st) st eq_refl)
      as [[Hc _]|(ctxs & bm & Hc & Hr)].
    + rewrite Hc in Hcalls. by apply app_singleton_neq in Hcalls.
    + rewrite Hc in Hcalls. apply app_singleton_inv in Hcalls. subst call.
      rewrite Hr. unfold engine_scores. by rewrite Hraise.
  - intros metric Hin. by apply neutral_lookup.
  - apply neutral_dom.
  - intros Heq. apply (f_equal (λ m, m !! "toxicity")) in Heq.
    vm_compute in Heq. discriminate Heq.
Qed.

Lemma engine_failure_neutral_witness :
  let w := sample_world "<class 'uvloop.Loop'>" instance_exports failing_engine in
  let st := sample_state ∅ in
  let metrics := ["relevance"; "toxicity"; "banana"] in
  let run := evaluate w "What is Rocq?" "I hate this, you idiot" metrics ∅ st in
  ∃ call,
    engine_calls run.2 = engine_calls st ++ [call]
    ∧ ev_ragas w call.1 call.2 = Raise OtherException
    ∧ run.1 = Ok (neutral_scores metrics).
Proof.
  intros w st metrics run.
  eexists. split; [vm_compute; reflexivity|].
  split; [reflexivity|].
  refine (proj1 (engine_failure_neutral w "What is Rocq?"
                   "I hate this, you idiot" metrics ∅ st _ OtherException
                   _ _)).
  - vm_compute. reflexivity.
  - reflexivity.
Defined.


(** ** The dataset handed to the engine *)

Lemma make_dataset_reference (input_text output_text : string)
    (contexts : list string) :
  ∃ row, make_dataset input_text output_text contexts = [row]
         ∧ question row = input_text ∧ answer row = output_text
         ∧ ground_truth row = output_text ∧ reference row = output_text.
Proof. eexists. by repeat split. Qed.

(** C10. Whatever the inputs, every call a run makes to the engine (through
    [_run_ragas_async] directly, or through [evaluate] on either path) hands
    it a dataset of one record whose answer, ground truth and reference are
    all the output text itself. *)
Theorem engine_reference_is_output (w : world)
    (input_text output_text : string) (metrics : list string)
    (params : gmap string string) (st : state)
    (call : list dataset_row * list metric_obj) :
  call ∈ new_engine_calls st
           (_run_ragas_async w input_text output_text metrics params st).2
  ∨ call ∈ new_engine_calls st
             (evaluate w input_text output_text metrics params st).2 →
  ∃ row, call.1 = [row]
         ∧ question row = input_text ∧ answer row = output_text
         ∧ ground_truth row = output_text ∧ reference row = output_text.
Proof.
  unfold new_engine_calls. intros [Hin|Hin].
  - destruct (run_ragas_async_spec w input_text output_text metrics params
                (environ st) (engine_calls st) st (conj eq_refl eq_refl))
      as [_ [[Hc _]|(ctxs & bm & Hc & _)]]; rewrite Hc in Hin.
    + rewrite drop_all in Hin. by apply elem_of_nil in Hin.
    + rewrite drop_app_length in Hin. apply list_elem_of_singleton in Hin.
      subst call. apply make_dataset_reference.
  - destruct (evaluate_spec w input_text output_text metrics params
                (engine_calls st) st eq_refl)
      as [[Hc _]|(ctxs & bm & Hc & _)]; rewrite Hc in Hin.
    + rewrite drop_all in Hin. by apply elem_of_nil in Hin.
    + rewrite drop_app_length in Hin. apply list_elem_of_singleton in Hin.
      subst call. apply make_dataset_reference.
Qed.

Lemma engine_reference_is_output_witness :
  let w := sample_world "asyncio" instance_exports constant_engine in
  let st := sample_state ∅ in
  let run := evaluate w "What is Rocq?" "A proof assistant."
                      ["correctness"; "similarity"] ∅ st in
  ∃ call,
    call ∈ new_engine_calls st run.2
    ∧ ∃ row, call.1 = [row]
             ∧ question row = "What is Rocq?"
             ∧ answer row = "A proof assistant."
             ∧ ground_truth row = "A proof assistant."
             ∧ reference row = "A proof assistant.".
Proof.
  intros w st run.
  assert (Hcalls : ∃ call, new_engine_calls st run.2 = [call])
    by (eexists; vm_compute; reflexivity).
  destruct Hcalls as [call Hcalls]. exists call.
  assert (Hin : call ∈ new_engine_calls st run.2)
    by (rewrite Hcalls; apply list_elem_of_singleton; reflexivity).
  split; [exact Hin|].
  exact (engine_reference_is_output w "What is Rocq?" "A proof assistant."
           ["correctness"; "similarity"] ∅ st call (or_intror Hin)).
Defined.

Example engine_sees_output_as_reference :
  (_run_ragas_async (sample_world "asyncio" instance_exports constant_engine)
     "capital of France?" "Berlin" ["correctness"]
     {[ "context" := "Paris is the capital of France." ]}
     (sample_state ∅)).2.(engine_calls)
  = [ ([ {| question := "capital of France?";
            answer := "Berlin";
            contexts := ["Paris is the capital of France."];
            ground_truth := "Berlin";
            user_input := "capital of France?";
            response := "Berlin";
            retrieved_contexts := ["Paris is the capital of France."];
            reference := "Berlin" |} ],
       [ MetricObj "answer_correctness" true true (Some 11) None true ]) ].
Proof. vm_compute. reflexivity. Qed.


(** ** The environment after the isolated path *)

(** When every value can be written, a variable that [_run_ragas_sync] did
    not set is, on every exit path, as it was, and a variable it set is
    absent afterwards.  So the environment is the one before the call
    exactly when none of the variables set had a value before. *)
Lemma run_ragas_sync_restores_unset (w : world)
    (input_text output_text : string) (metrics : list string)
    (params : gmap string string) (st : state) :
  settable params = true →
  (∀ var, var ∈ provider_variables params → environ st !! var = None) →
  environ (_run_ragas_sync w input_text output_text metrics params st).2
  = environ st.
Proof.
  intros Hset Hunset.
  destruct (run_ragas_sync_spec w input_text output_text metrics params
              (environ st) (engine_calls st) st (conj eq_refl eq_refl))
    as (Hother & Hgone & _).
  apply map_eq. intros var.
  destruct (decide (var ∈ provider_variables params)) as [Hin|Hnin].
  - rewrite (Hgone Hset var Hin). symmetry. by apply Hunset.
  - by apply Hother.
Qed.

Lemma run_ragas_sync_loses_set (w : world)
    (input_text output_text : string) (metrics : list string)
    (params : gmap string string) (st : state) (var : string) :
  settable params = true →
  var ∈ provider_variables params →
  environ (_run_ragas_sync w input_text output_text metrics params st).2
    !! var = None.
Proof.
  intros Hset Hin.
  destruct (run_ragas_sync_spec w input_text output_text metrics params
              (environ st) (engine_calls st) st (conj eq_refl eq_refl))
    as (_ & Hgone & _).
  by apply Hgone.
Qed.

(** C2, at the failing input.  The process has AZURE_OPENAI_API_KEY set and
    the call brings its own key in [params]: after the isolated run the
    variable is gone instead of holding its former value, when the run
    succeeds and when it raises alike. *)
Theorem isolated_run_loses_ambient_variable :
  let E : gmap string string :=
    <["AZURE_OPENAI_API_KEY" := "ambient-key"]> {[ "PATH" := "/usr/bin" ]} in
  let params : gmap string string :=
    {[ "langfuse.azure_api_key" := "call-key" ]} in
  let ok := sample_world "<class 'uvloop.Loop'>" instance_exports
                         constant_engine in
  let ko := no_engine_world "<class 'uvloop.Loop'>" in
  (_run_ragas_sync ok "q" "a" ["relevance"] params (sample_state E)).1
  = Ok {[ "relevance" := Fin (4 # 5) ]}
  ∧ environ (_run_ragas_sync ok "q" "a" ["relevance"] params (sample_state E)).2
    = {[ "PATH" := "/usr/bin" ]}
  ∧ (_run_ragas_sync ko "q" "a" ["relevance"] params (sample_state E)).1
    = Raise ImportError
  ∧ environ (_run_ragas_sync ko "q" "a" ["relevance"] params (sample_state E)).2
    = {[ "PATH" := "/usr/bin" ]}
  ∧ environ (evaluate ok "q" "a" ["relevance"] params (sample_state E)).2
    = {[ "PATH" := "/usr/bin" ]}
  ∧ E !! "AZURE_OPENAI_API_KEY" = Some "ambient-key".
Proof. repeat split; vm_compute; reflexivity. Qed.


(** ** Import failure *)

Section raises_rules.
Context {A B : Type}.

Lemma raises_bind_post (P : A → Prop) (m : M A) (k : A → M B) :
  (∀ st, (∃ e, (m st).1 = Raise e) ∨ (∃ a, (m st).1 = Ok a ∧ P a)) →
  (∀ a, P a → raises (k a)) →
  raises (m ≫= k).
Proof.
  intros Hm Hk st. unfold mbind, M_bind, bind.
  destruct (Hm st) as [[e He]|[a [Ha HP]]];
    destruct (m st) as [r st1]; simpl in *; subst r.
  - by exists e.
  - by apply Hk.
Qed.

Lemma raises_bind_l (m : M A) (k : A → M B) : raises m → raises (m ≫= k).
Proof.
  intros Hm. apply (raises_bind_post (λ _, False)); [|done].
  intros st. left. apply Hm.
Qed.

Lemma raises_bind_r (m : M A) (k : A → M B) :
  (∀ a, raises (k a)) → raises (m ≫= k).
Proof.
  intros Hk. apply (raises_bind_post (λ _, True)); [|auto].
  intros st. destruct (m st).1 as [a|e]; eauto.
Qed.

Lemma raises_reraise (body : M A) :
  raises body → raises (try_except body (λ e, raise e)).
Proof.
  intros Hm st. unfold try_except. destruct (Hm st) as [e He].
  destruct (body st) as [r st1]; simpl in *; subst r. by exists e.
Qed.

Lemma raises_finally (body : M A) (vars : list string) :
  raises body → raises (try_finally body (clean_up_environment vars)).
Proof.
  intros Hm st. unfold try_finally. destruct (Hm st) as [e He].
  destruct (body st) as [r st1]; simpl in *; subst r.
  destruct (clean_up_environment_spec vars [] st1) as [Hr _].
  destruct (clean_up_environment vars st1) as [r st2]; simpl in *; subst r.
  by exists e.
Qed.
End raises_rules.

Lemma raises_import (w : world) (m : pymodule) :
  importable w m = false → raises (import_ w m).
Proof. intros Hm st. unfold import_. rewrite Hm. by exists ImportError. Qed.

Lemma raises_default_unbound (w : world) (llm_h : handle)
    (emb : option handle) :
  raises (default_metrics w llm_h emb false).
Proof.
  unfold default_metrics. apply raises_bind_r. intros l.
  apply raises_bind_l. intros st. by exists UnboundLocalError.
Qed.

(** Without the imports of its body, the binding loop either raises or
    leaves [supported_metrics] and [bound] as they were. *)
Lemma bind_metrics_blocked (w : world) (llm_h : handle) (emb : option handle)
    (metrics : list string) (supported_metrics : list loc) (bound : bool)
    (st : state) :
  importable w ragas_metrics_base = false
  ∨ importable w ragas_run_config = false →
  let r := (bind_metrics w llm_h emb metrics supported_metrics bound st).1 in
  (∃ e, r = Raise e) ∨ (∃ a, r = Ok a ∧ a = (supported_metrics, bound)).
Proof.
  intros Himp. revert st.
  induction metrics as [|metric rest IH]; intros st; simpl.
  - right. by eexists.
  - destruct (ragas_metric_map !! metric) as [[ragas_metric|]|]; try apply IH.
    left. destruct Himp as [Himp|Himp].
    + by apply raises_bind_l, raises_import.
    + apply raises_bind_r. intros _. by apply raises_bind_l, raises_import.
Qed.

Lemma run_ragas_async_raises (w : world) (input_text output_text : string)
    (metrics : list string) (params : gmap string string) (m : pymodule) :
  m ∈ engine_modules → importable w m = false →
  raises (_run_ragas_async w input_text output_text metrics params).
Proof.
  intros Hm Himp. unfold _run_ragas_async.
  unfold engine_modules in Hm. rewrite !elem_of_cons, elem_of_nil in Hm.
  destruct Hm as [->|[->|[->|[->|[Hm|[Hm|[]]]]]]].
  - by apply raises_bind_l, raises_import.
  - apply raises_bind_r; intros _. by apply raises_bind_l, raises_import.
  - do 2 (apply raises_bind_r; intros _). by apply raises_bind_l, raises_import.
  - do 3 (apply raises_bind_r; intros _). apply raises_bind_r. intros [p c].
    apply raises_bind_l. unfold make_llm. apply raises_reraise.
    apply raises_bind_r; intros ?. by apply raises_bind_l, raises_import.
  - do 3 (apply raises_bind_r; intros _). apply raises_bind_r. intros [p c].
    do 2 (apply raises_bind_r; intros ?).
    eapply raises_bind_post.
    + intros st. apply bind_metrics_blocked. left. by subst m.
    + intros ? ->. apply raises_bind_l, raises_default_unbound.
  - do 3 (apply raises_bind_r; intros _). apply raises_bind_r. intros [p c].
    do 2 (apply raises_bind_r; intros ?).
    eapply raises_bind_post.
    + intros st. apply bind_metrics_blocked. right. by subst m.
    + intros ? ->. apply raises_bind_l, raises_default_unbound.
Qed.

(** C5. When a module of the evaluation engine cannot be imported,
    [evaluate] returns, for all inputs and on both execution paths, exactly
    the mapping of the fallback scorer for the same texts and metrics. *)
Theorem import_failure_is_fallback (w : world)
    (input_text output_text : string) (metrics : list string)
    (params : gmap string string) (st : state) (m : pymodule) :
  m ∈ engine_modules → importable w m = false →
  (evaluate w input_text output_text metrics params st).1
  = Ok (_fallback_evaluation input_text output_text metrics).
Proof.
  intros Hm Himp.
  pose proof (run_ragas_async_raises w input_text output_text metrics params
                m Hm Himp) as Hasync.
  unfold evaluate, try_except, mbind, M_bind, bind, detect_uvloop.
  assert (Hsync : raises (_run_ragas_sync w input_text output_text metrics
                                          params)).
  { unfold _run_ragas_sync. apply raises_bind_r. intros vars.
    by apply raises_finally, raises_reraise. }
  destruct (get_event_loop w) as [loop_type|e]; simpl.
  - destruct (py_contains "uvloop" loop_type).
    + destruct (Hsync st) as [e He].
      destruct (_run_ragas_sync _ _ _ _ _ st) as [r st']; simpl in *; subst r.
      by destruct e.
    + destruct (Hasync st) as [e He].
      destruct (_run_ragas_async _ _ _ _ _ st) as [r st']; simpl in *; subst r.
      by destruct e.
  - destruct e; simpl; try reflexivity.
    destruct (Hasync st) as [e He].
    destruct (_run_ragas_async _ _ _ _ _ st) as [r st']; simpl in *; subst r.
    by destruct e.
Qed.

Lemma import_failure_is_fallback_witness :
  let w := no_engine_world "<class 'uvloop.Loop'>" in
  ragas ∈ engine_modules
  ∧ importable w ragas = false
  ∧ (evaluate w "What is the capital of France?"
              "Paris is the capital of France." ["relevance"; "correctness"]
              ∅ (sample_state ∅)).1
    = Ok (_fallback_evaluation "What is the capital of France?"
            "Paris is the capital of France." ["relevance"; "correctness"]).
Proof.
  intros w.
  assert (Hm : ragas ∈ engine_modules) by (apply list_elem_of_here).
  split; [exact Hm|]. split; [reflexivity|].
  exact (import_failure_is_fallback w "What is the capital of France?"
           "Paris is the capital of France." ["relevance"; "correctness"]
           ∅ (sample_state ∅) ragas Hm eq_refl).
Defined.


(** ** Metric objects across calls *)

Lemma state_eta (st : state) :
  st = State (environ st) (heap st ++ []) (engine_calls st ++ []).
Proof. destruct st. simpl. by rewrite !app_nil_r. Qed.

Section framed_rules.
Context {A B : Type}.

Lemma framed_pure (m : M A) (r : result A) :
  (∀ st, m st = (r, st)) → framed m.
Proof.
  intros Hm. exists r, id, [], []. intros st. rewrite Hm. simpl.
  f_equal. apply state_eta.
Qed.

Lemma framed_ret (a : A) : framed (mret a).
Proof. by apply (framed_pure _ (Ok a)). Qed.

Lemma framed_raise (e : exn) : framed (A := A) (raise e).
Proof. by apply (framed_pure _ (Raise e)). Qed.

Lemma framed_lift (r : result A) : framed (lift r).
Proof. by apply (framed_pure _ r). Qed.

Lemma framed_bind (m : M A) (k : A → M B) :
  framed m → (∀ a, framed (k a)) → framed (m ≫= k).
Proof.
  intros (r & fE & objs & calls & Hm) Hk.
  destruct r as [a|e].
  - destruct (Hk a) as (r' & fE' & objs' & calls' & Hka).
    exists r', (fE' ∘ fE), (objs ++ objs'), (calls ++ calls'). intros st.
    unfold mbind, M_bind, bind. rewrite Hm, Hka. simpl.
    by rewrite !app_assoc.
  - exists (Raise e), fE, objs, calls. intros st.
    unfold mbind, M_bind, bind. by rewrite Hm.
Qed.

Lemma framed_try_except (body : M A) (handler : exn → M A) :
  framed body → (∀ e, framed (handler e)) →
  framed (try_except body handler).
Proof.
  intros (r & fE & objs & calls & Hm) Hh.
  destruct r as [a|e].
  - exists (Ok a), fE, objs, calls. intros st.
    unfold try_except. by rewrite Hm.
  - destruct (Hh e) as (r' & fE' & objs' & calls' & Hhe).
    exists r', (fE' ∘ fE), (objs ++ objs'), (calls ++ calls'). intros st.
    unfold try_except. rewrite Hm, Hhe. simpl. by rewrite !app_assoc.
Qed.

Lemma framed_try_finally (body : M A) (cleanup : M unit) :
  framed body → framed cleanup → framed (try_finally body cleanup).
Proof.
  intros (r & fE & objs & calls & Hm) (r' & fE' & objs' & calls' & Hc).
  exists (match r' with Ok _ => r | Raise e => Raise e end),
         (fE' ∘ fE), (objs ++ objs'), (calls ++ calls').
  intros st. unfold try_finally. rewrite Hm, Hc. simpl.
  rewrite !app_assoc. by destruct r'.
Qed.
End framed_rules.

Lemma framed_import (w : world) (m : pymodule) : framed (import_ w m).
Proof.
  unfold import_. destruct (importable w m);
    [apply (framed_ret (A := unit)) | apply framed_raise].
Qed.

Lemma framed_getitem {V} (d : gmap string V) (key : string) :
  framed (getitem d key).
Proof.
  unfold getitem. destruct (d !! key); [apply framed_ret | apply framed_raise].
Qed.

Lemma framed_environ_set (var value : string) :
  framed (environ_set var value).
Proof.
  unfold environ_set. destruct (has_nul value); [apply framed_raise|].
  exists (Ok tt), (λ E, <[var := value]> E), [], []. intros st.
  by rewrite !app_nil_r.
Qed.

Lemma framed_environ_pop (var : string) : framed (environ_pop var).
Proof.
  exists (Ok tt), (λ E, delete var E), [], []. intros st.
  unfold environ_pop. by rewrite !app_nil_r.
Qed.

Lemma framed_make_llm (w : world) (provider_type : string)
    (llm_config : gmap string string) :
  framed (make_llm w provider_type llm_config).
Proof.
  unfold make_llm.
  repeat first
    [ apply framed_import | apply framed_lift
    | apply framed_ret | apply framed_raise
    | apply framed_try_except; [|intros ?]
    | apply framed_bind; [|intros ?] ].
Qed.

Lemma framed_make_embeddings (w : world) (provider_type : string)
    (llm_config params : gmap string string) :
  framed (make_embeddings w provider_type llm_config params).
Proof.
  unfold make_embeddings.
  apply framed_try_except; [|intros ?; apply framed_ret].
  case_decide; [|apply framed_ret].
  repeat first
    [ apply framed_import | apply framed_lift | apply framed_getitem
    | apply framed_ret | apply framed_raise
    | apply framed_try_except; [|intros ?]
    | apply framed_bind; [|intros ?] ].
Qed.

Lemma framed_set_provider_environment (params : gmap string string) :
  framed (set_provider_environment params).
Proof.
  unfold set_provider_environment.
  repeat first
    [ apply framed_environ_set | apply framed_ret
    | match goal with
      | |- framed (match ?o with Some _ => _ | None => _ end) => destruct o
      end
    | apply framed_bind; [|intros ?] ].
Qed.

Lemma framed_clean_up_environment (env_vars_set : list string) :
  framed (clean_up_environment env_vars_set).
Proof.
  induction env_vars_set as [|var rest IH]; simpl.
  - apply framed_ret.
  - apply framed_bind; [apply framed_environ_pop | intros _; exact IH].
Qed.

Lemma lookup_snoc {A} (h : list A) (t : A) : (h ++ [t]) !! length h = Some t.
Proof. by apply list_lookup_middle. Qed.

Lemma insert_snoc {A} (h : list A) (t x : A) :
  <[length h := x]> (h ++ [t]) = h ++ [x].
Proof.
  induction h as [|y h IH]; simpl; [done|]. by rewrite IH.
Qed.

Lemma snapshot_fresh {A} (h objs : list A) :
  omap (λ l, (h ++ objs) !! l) (seq (length h) (length objs)) = objs.
Proof.
  revert h. induction objs as [|o objs IH]; intros h; simpl; [done|].
  rewrite list_lookup_middle by done. f_equal.
  specialize (IH (h ++ [o])).
  rewrite length_app, <- app_assoc in IH. simpl in IH.
  by rewrite Nat.add_1_r in IH.
Qed.

(** [configure] on the object just built at the end of the heap. *)
Lemma configure_fresh (w : world) (llm_h : handle) (emb : option handle)
    (t : metric_obj) (E : gmap string string) (h : list metric_obj)
    (C : list (list dataset_row * list metric_obj)) :
  configure w llm_h emb (length h) (State E (h ++ [t]) C)
  = ((configured w llm_h emb t).2,
     State E (h ++ [(configured w llm_h emb t).1]) C).
Proof.
  unfold configure, configured, mbind, M_bind, bind, deref, store, lift.
  simpl. rewrite lookup_snoc.
  destruct (is_MetricWithLLM t) eqn:Hllm; simpl;
    rewrite ?insert_snoc, ?lookup_snoc;
    destruct emb as [e|]; simpl; rewrite ?Hllm; simpl;
    try (destruct (is_MetricWithEmbeddings t) eqn:Hemb; simpl);
    rewrite ?insert_snoc, ?lookup_snoc;
    match goal with
    | |- context [metric_init w ?o] => destruct (metric_init w o)
    end; simpl; by rewrite ?insert_snoc.
Qed.

(** With classes, the binding loop builds objects that do not depend on the
    state it starts from, after the heap it found. *)
Lemma bind_metrics_classes (w : world) (llm_h : handle) (emb : option handle)
    (metrics : list string) (bound : bool) :
  classes_only w →
  ∃ (objs : list metric_obj) (out : result bool),
    (∀ b', out = Ok b' → objs = [] → b' = bound)
    ∧ ∀ supported_metrics st,
        bind_metrics w llm_h emb metrics supported_metrics bound st
        = (match out with
           | Ok b' =>
               Ok (supported_metrics
                     ++ seq (length (heap st)) (length objs), b')
           | Raise e => Raise e
           end,
           State (environ st) (heap st ++ objs) (engine_calls st)).
Proof.
  intros Hclasses. revert bound.
  induction metrics as [|metric rest IH]; intros bound.
  - exists [], (Ok bound). split; [by intros ? [= <-]|].
    intros supp [E h C]. simpl. by rewrite !app_nil_r.
  - simpl. destruct (ragas_metric_map !! metric) as [[ragas_metric|]|];
      try apply IH.
    destruct (importable w ragas_metrics_base) eqn:Hbase;
      [|exists [], (Raise ImportError); split; [done|];
        intros supp [E h C];
        unfold mbind, M_bind, bind, import_; rewrite Hbase; simpl;
        by rewrite app_nil_r].
    destruct (importable w ragas_run_config) eqn:Hrun;
      [|exists [], (Raise ImportError); split; [done|];
        intros supp [E h C];
        unfold mbind, M_bind, bind, import_; rewrite Hbase, Hrun; simpl;
        by rewrite app_nil_r].
    destruct (Hclasses ragas_metric) as [t Ht].
    destruct (configured w llm_h emb t) as [t' [[]|e]] eqn:Hconf.
    + destruct (IH true) as (objs & out & _ & Hrest).
      exists (t' :: objs), out. split; [done|].
      intros supp [E h C].
      unfold mbind, M_bind, bind, import_, instantiate, alloc.
      rewrite Hbase, Hrun, Ht. simpl.
      rewrite configure_fresh, Hconf. simpl.
      rewrite Hrest. simpl. rewrite length_app, <- !app_assoc. simpl.
      by rewrite Nat.add_1_r.
    + exists [t'], (Raise e). split; [done|].
      intros supp [E h C].
      unfold mbind, M_bind, bind, import_, instantiate, alloc.
      rewrite Hbase, Hrun, Ht. simpl.
      by rewrite configure_fresh, Hconf.
Qed.

Lemma snapshot_eq (refs : list loc) (st : state) :
  snapshot refs st = (Ok (omap (λ l, heap st !! l) refs), st).
Proof. reflexivity. Qed.

Lemma framed_run_ragas_async (w : world) (input_text output_text : string)
    (metrics : list string) (params : gmap string string) :
  classes_only w →
  framed (_run_ragas_async w input_text output_text metrics params).
Proof.
  intros Hclasses. unfold _run_ragas_async.
  do 3 (apply framed_bind; [apply framed_import | intros _]).
  apply framed_bind; [apply framed_lift | intros [provider_type llm_config]].
  apply framed_bind; [apply framed_make_llm | intros llm_h].
  apply framed_bind; [apply framed_make_embeddings | intros emb].
  destruct (bind_metrics_classes w llm_h emb metrics false Hclasses)
    as (objs & out & Hbound & Hbind).
  destruct out as [b'|e].
  - destruct objs as [|o objs].
    + specialize (Hbound b' eq_refl eq_refl). subst b'.
      destruct (Hclasses answer_relevancy) as [t Ht].
      exists (Raise UnboundLocalError), id, [t], []. intros [E h C].
      unfold mbind, M_bind, bind. rewrite Hbind. simpl.
      unfold default_metrics, mbind, M_bind, bind, instantiate, alloc.
      rewrite Ht. simpl. by rewrite !app_nil_r.
    + destruct (from_request_params w params) as [eval_params|e] eqn:Hparams.
      * exists
          (match ev_ragas w
                   (make_dataset input_text output_text
                                 (make_contexts eval_params)) (o :: objs) with
           | Raise _ => Ok (neutral_scores metrics)
           | Ok [] => Raise IndexError
           | Ok (result_dict :: _) => Ok (normalize result_dict metrics)
           end), id, (o :: objs),
          [(make_dataset input_text output_text (make_contexts eval_params),
            o :: objs)].
        intros [E h C]. unfold mbind, M_bind, bind. rewrite Hbind.
        cbn [seq length app]. unfold lift.
        cbn [mbind M_bind bind mret M_ret ret heap record_engine_call
             environ engine_calls].
        change (h ++ o :: objs) with (h ++ (o :: objs)).
        change (length h :: seq (S (length h)) (length objs))
          with (seq (length h) (length (o :: objs))).
        rewrite snapshot_eq. cbn [heap environ engine_calls].
        rewrite snapshot_fresh.
        destruct (ev_ragas w _ (o :: objs)) as [[|rd rs]|e]; reflexivity.
      * exists (Raise e), id, (o :: objs), []. intros [E h C].
        unfold mbind, M_bind, bind. rewrite Hbind.
        cbn [seq length app]. simpl. by rewrite app_nil_r.
  - exists (Raise e), id, objs, []. intros [E h C].
    unfold mbind, M_bind, bind. rewrite Hbind. simpl. by rewrite app_nil_r.
Qed.

Lemma framed_run_ragas_sync (w : world) (input_text output_text : string)
    (metrics : list string) (params : gmap string string) :
  classes_only w →
  framed (_run_ragas_sync w input_text output_text metrics params).
Proof.
  intros Hclasses. unfold _run_ragas_sync.
  apply framed_bind; [apply framed_set_provider_environment | intros vars].
  apply framed_try_finally; [|apply framed_clean_up_environment].
  apply framed_try_except; [|intros e; apply framed_raise].
  by apply framed_run_ragas_async.
Qed.

Lemma framed_evaluate (w : world) (input_text output_text : string)
    (metrics : list string) (params : gmap string string) :
  classes_only w →
  framed (evaluate w input_text output_text metrics params).
Proof.
  intros Hclasses. unfold evaluate.
  apply framed_try_except; [|intros []; apply framed_ret].
  apply framed_bind.
  - unfold detect_uvloop. destruct (get_event_loop w) as [loop_type|[]];
      first [apply framed_ret | apply framed_raise].
  - intros [|]; [by apply framed_run_ragas_sync
                | by apply framed_run_ragas_async].
Qed.

(** [configure] on an object that is already in the heap writes into it in
    place. *)
Lemma configure_in_place (w : world) (llm_h : handle) (emb : option handle)
    (l : loc) (o : metric_obj) (st : state) :
  heap st !! l = Some o →
  configure w llm_h emb l st
  = ((configured w llm_h emb o).2,
     State (environ st) (<[l := (configured w llm_h emb o).1]> (heap st))
           (engine_calls st)).
Proof.
  intros Hl. pose proof (lookup_lt_Some _ _ _ Hl) as Hlt.
  destruct st as [E h C]. simpl in *.
  unfold configure, configured, mbind, M_bind, bind, deref, store, lift.
  simpl. rewrite Hl.
  destruct (is_MetricWithLLM o) eqn:Hllm; simpl;
    rewrite ?list_lookup_insert_eq, ?Hl by (by rewrite ?length_insert);
    destruct emb as [e|]; simpl; rewrite ?Hllm; simpl;
    try (destruct (is_MetricWithEmbeddings o) eqn:Hemb; simpl);
    rewrite ?list_lookup_insert_eq, ?Hl by (by rewrite ?length_insert);
    match goal with
    | |- context [metric_init w ?o'] => destruct (metric_init w o')
    end; simpl;
    rewrite ?list_insert_insert_eq;
    try reflexivity;
    by rewrite (list_insert_id h l o).
Qed.

(** The metric objects are not, in general, left alone by a call, and what
    a call hands to the engine is not, in general, independent of the calls
    before it: both fail when [ragas.metrics] binds its names to objects of
    the module, the case the adapter calls "already an instance". *)
Lemma shared_metric_objects_are_mutated :
  ¬ (∀ (w : world) (input_text output_text : string) (metrics : list string)
       (params : gmap string string) (st : state) (l : loc) (obj : metric_obj),
       heap st !! l = Some obj →
       heap (evaluate w input_text output_text metrics params st).2 !! l
       = Some obj)
  ∧ ¬ (∀ (w : world) (metrics : list string)
         (params1 params2 : gmap string string) (st : state),
         let st1 := (evaluate w "q" "a" metrics params1 st).2 in
         new_engine_calls st1 (evaluate w "q2" "a2" metrics params2 st1).2
         = new_engine_calls st (evaluate w "q2" "a2" metrics params2 st).2).
Proof.
  pose (w := sample_world "asyncio" instance_exports constant_engine).
  pose (azure := ({[ "langfuse.azure_api_key" := "k" ]} : gmap string string)).
  split.
  - intros Hframe.
    specialize (Hframe w "q" "a" ["relevance"] azure (sample_state ∅) 0
                  (MetricObj "answer_relevancy" true true None None false)
                  eq_refl).
    vm_compute in Hframe. discriminate Hframe.
  - intros Hlater.
    specialize (Hlater w ["relevance"] azure ∅ (sample_state ∅)).
    vm_compute in Hlater. discriminate Hlater.
Qed.

(** C6, at the failing input.  [ragas.metrics] binds [answer_relevancy] to
    an object of the module, as the adapter's "already an instance" branch
    expects.  A first call with an Azure key builds an embeddings client
    and writes it, with its LLM, into that shared object, which outlives
    the call.  A second call without Azure parameters has no embeddings
    ("needs embeddings but none provided"), yet the metric it hands to the
    engine still carries the first call's embeddings client; from the
    initial state the same call hands over a metric without embeddings.
    So the metric is not configured "with our LLM and embeddings", and
    state of one call reaches the next. *)
Theorem second_call_binds_first_calls_embeddings :
  let w := sample_world "asyncio" instance_exports constant_engine in
  let azure : gmap string string := {[ "langfuse.azure_api_key" := "k" ]} in
  let st0 := sample_state ∅ in
  let st1 := (evaluate w "q" "a" ["relevance"] azure st0).2 in
  ragas_metrics_exports w answer_relevancy = MetricInstance 0
  ∧ heap st0 !! 0
    = Some (MetricObj "answer_relevancy" true true None None false)
  ∧ heap st1 !! 0
    = Some (MetricObj "answer_relevancy" true true (Some 11) (Some 29) true)
  ∧ detect_provider w ∅ = Ok ("openai", ∅)
  ∧ make_embeddings w "openai" ∅ ∅ st1 = (Ok None, st1)
  ∧ snd <$> new_engine_calls st1
              (evaluate w "q2" "a2" ["relevance"] ∅ st1).2
    = [[MetricObj "answer_relevancy" true true (Some 11) (Some 29) true]]
  ∧ snd <$> new_engine_calls st0
              (evaluate w "q2" "a2" ["relevance"] ∅ st0).2
    = [[MetricObj "answer_relevancy" true true (Some 11) None true]].
Proof. repeat split; vm_compute; reflexivity. Qed.

(** When [ragas.metrics] binds the metric names to classes, every call
    builds its own metric objects: the call leaves each object that existed
    before it as it was, the objects it binds are new ones placed after
    them, and the scores it returns, the objects it builds and what it
    hands to the engine are the same from every prior state.  When a name
    is bound to an instance, the binding step takes that very object and
    writes into it in place: its llm is replaced when it is a metric with
    LLM, and without an embeddings handle its embeddings stay what they
    were. *)
Theorem fresh_metrics_per_call (w : world) (input_text output_text : string)
    (metrics : list string) (params : gmap string string) :
  (classes_only w →
   ∃ (scores : gmap string pyfloat) (objs : list metric_obj)
     (calls : list (list dataset_row * list metric_obj)),
     ∀ st,
       let run := evaluate w input_text output_text metrics params st in
       run.1 = Ok scores
       ∧ heap run.2 = heap st ++ objs
       ∧ new_engine_calls st run.2 = calls
       ∧ (∀ l obj, heap st !! l = Some obj → heap run.2 !! l = Some obj))
  ∧ (∀ (ragas_metric : ragas_export) (l : loc) (obj : metric_obj)
       (llm_h : handle) (emb : option handle) (st : state),
       ragas_metrics_exports w ragas_metric = MetricInstance l →
       heap st !! l = Some obj →
       let obj' := (configured w llm_h emb obj).1 in
       (instantiate w ragas_metric ≫= configure w llm_h emb) st
       = ((configured w llm_h emb obj).2,
          State (environ st) (<[l := obj']> (heap st)) (engine_calls st))
       ∧ (is_MetricWithLLM obj = true → llm obj' = Some llm_h)
       ∧ (emb = None → embeddings obj' = embeddings obj)).
Proof.
  split.
  - intros Hclasses.
    destruct (framed_evaluate w input_text output_text metrics params
                Hclasses) as (r & fE & objs & calls & Hrun).
    assert (Hok : ∃ scores, r = Ok scores).
    { destruct (evaluate_spec w input_text output_text metrics params
                  [] (State ∅ [] []) eq_refl)
        as [[_ Hr]|(ctxs & bm & _ & Hr)];
        rewrite Hrun in Hr; simpl in Hr; eauto. }
    destruct Hok as [scores ->].
    exists scores, objs, calls. intros st run. subst run. rewrite Hrun. simpl.
    split; [done|]. split; [done|]. split.
    + unfold new_engine_calls. simpl. by rewrite drop_app_length.
    + intros l obj Hl. by apply lookup_app_l_Some.
  - intros ragas_metric l obj llm_h emb st Hexport Hl obj'. split; [|split].
    + unfold mbind, M_bind, bind, instantiate. rewrite Hexport. simpl.
      by apply configure_in_place.
    + intros Hllm. subst obj'. unfold configured. rewrite Hllm.
      destruct emb as [e|]; simpl;
        try destruct (is_MetricWithEmbeddings obj);
        match goal with
        | |- context [metric_init w ?o] => destruct (metric_init w o)
        end; reflexivity.
    + intros ->. subst obj'. unfold configured.
      destruct (is_MetricWithLLM obj);
        match goal with
        | |- context [metric_init w ?o] => destruct (metric_init w o)
        end; reflexivity.
Qed.

Lemma fresh_metrics_per_call_witness :
  let wc := sample_world "<class 'uvloop.Loop'>" class_exports
                         constant_engine in
  let wi := sample_world "asyncio" instance_exports constant_engine in
  let azure : gmap string string := {[ "langfuse.azure_api_key" := "k" ]} in
  let shared := MetricObj "answer_relevancy" true true (Some 11) (Some 29)
                          true in
  let st1 := (evaluate wi "q" "a" ["relevance"] azure (sample_state ∅)).2 in
  (classes_only wc
   ∧ ∃ (scores : gmap string pyfloat) (objs : list metric_obj)
       (calls : list (list dataset_row * list metric_obj)),
       ∀ st,
         let run := evaluate wc "q" "a" ["relevance"; "faithfulness"]
                             azure st in
         run.1 = Ok scores
         ∧ heap run.2 = heap st ++ objs
         ∧ new_engine_calls st run.2 = calls
         ∧ (∀ l obj, heap st !! l = Some obj → heap run.2 !! l = Some obj))
  ∧ (ragas_metrics_exports wi answer_relevancy = MetricInstance 0
     ∧ heap st1 !! 0 = Some shared
     ∧ (instantiate wi answer_relevancy ≫= configure wi 12 None) st1
       = ((configured wi 12 None shared).2,
          State (environ st1)
                (<[0 := (configured wi 12 None shared).1]> (heap st1))
                (engine_calls st1))
     ∧ llm (configured wi 12 None shared).1 = Some 12
     ∧ embeddings (configured wi 12 None shared).1 = Some 29).
Proof.
  intros wc wi azure shared st1.
  assert (Hclasses : classes_only wc) by (intros []; eexists; reflexivity).
  assert (Hexport : ragas_metrics_exports wi answer_relevancy
                    = MetricInstance 0) by reflexivity.
  assert (Hheap : heap st1 !! 0 = Some shared) by (vm_compute; reflexivity).
  split.
  - split; [exact Hclasses|].
    exact (proj1 (fresh_metrics_per_call wc "q" "a"
                    ["relevance"; "faithfulness"] azure) Hclasses).
  - split; [exact Hexport|]. split; [exact Hheap|].
    pose proof (proj2 (fresh_metrics_per_call wi "q" "a" ["relevance"] azure)
                  answer_relevancy 0 shared 12 None st1 Hexport Hheap)
      as (Hrun & Hllm & Hemb).
    split; [exact Hrun|]. split; [exact (Hllm eq_refl)|].
    exact (Hemb eq_refl).
Defined.

Example classes_give_fresh_objects :
  let w := sample_world "asyncio" class_exports constant_engine in
  let azure : gmap string string := {[ "langfuse.azure_api_key" := "k" ]} in
  let st1 := (evaluate w "q" "a" ["relevance"] azure (sample_state ∅)).2 in
  heap st1
  = sample_objects
      ++ [MetricObj "answer_relevancy" true true (Some 11) (Some 29) true]
  ∧ snd <$> new_engine_calls st1
              (evaluate w "q2" "a2" ["relevance"] ∅ st1).2
    = [[MetricObj "answer_relevancy" true true (Some 11) None true]].
Proof. repeat split; vm_compute; reflexivity. Qed.

(** The two imports inside the embeddings block have a handler of their own
    (lines 185-187): when they fail the run goes on without embeddings and
    the engine is still called. *)
Example embeddings_import_failure_is_swallowed :
  (evaluate no_embeddings_library_world "q" "a" ["relevance"]
            {[ "langfuse.azure_api_key" := "k" ]} (sample_state ∅)).1
  = Ok {[ "relevance" := Fin (4 # 5) ]}
  ∧ snd <$> engine_calls
              (evaluate no_embeddings_library_world "q" "a" ["relevance"]
                 {[ "langfuse.azure_api_key" := "k" ]} (sample_state ∅)).2
    = [[MetricObj "answer_relevancy" true true (Some 11) None true]].
Proof. split; vm_compute; reflexivity. Qed.

(** A request with no metric known to the engine never reaches it: the
    default metric of lines 234-246 reads [MetricWithLLM] before any import
    has bound it, and the fallback scorer answers. *)
Example unsupported_metrics_fall_back :
  (_run_ragas_async (sample_world "asyncio" instance_exports constant_engine)
     "q" "a" ["toxicity"; "banana"] ∅ (sample_state ∅)).1
  = Raise UnboundLocalError
  ∧ (evaluate (sample_world "asyncio" instance_exports constant_engine)
       "q" "I hate this, you idiot" ["toxicity"; "banana"] ∅ (sample_state ∅)).1
    = Ok (<["toxicity" := Fin (2 # 3)]> {[ "banana" := Fin (1 # 2) ]}).
Proof. split; vm_compute; reflexivity. Qed.

(** * Further properties of the fallback scorer *)

Lemma int_ratio_nonneg (a : nat) (d : Z) :
  (0 < d)%Z → (0 <= inject_Z (Z.of_nat a) / inject_Z d)%Q.
Proof.
  intros Hd. unfold Qdiv. apply Qmult_le_0_compat.
  - change 0%Q with (inject_Z 0). rewrite <- Zle_Qle. lia.
  - apply Qinv_le_0_compat. change 0%Q with (inject_Z 0).
    rewrite <- Zle_Qle. lia.
Qed.

Lemma py_min_unit (x : Q) : (0 <= x)%Q → (0 <= py_min 1 x <= 1)%Q.
Proof.
  intros Hx. unfold py_min. destruct (x ?= 1)%Q eqn:Hc.
  - split; [done | apply Qle_refl].
  - split; [exact Hx | apply Qlt_le_weak; by apply Qlt_alt].
  - split; [done | apply Qle_refl].
Qed.

Lemma fallback_score_unit (input_text output_text metric : string) :
  ∃ q, fallback_score input_text output_text metric = Fin q
       ∧ (0 <= q <= 1)%Q.
Proof.
  unfold fallback_score. repeat case_decide; eexists; (split; [reflexivity|]).
  - apply py_min_unit. unfold relevance_ratio. apply int_ratio_nonneg. lia.
  - apply py_min_unit. apply (int_ratio_nonneg _ 100). lia.
  - apply py_min_unit. apply (int_ratio_nonneg _ 3). lia.
  - split; done.
Qed.

Lemma fallback_lookup_inv (input_text output_text : string)
    (metrics : list string) (metric : string) (s : pyfloat) :
  _fallback_evaluation input_text output_text metrics !! metric = Some s →
  metric ∈ metrics ∧ s = fallback_score input_text output_text metric.
Proof.
  unfold _fallback_evaluation.
  change (foldl _ ∅ metrics)
    with (fill (fallback_score input_text output_text) ∅ metrics).
  rewrite fill_lookup. case_decide; [|by rewrite lookup_empty].
  by intros [= <-].
Qed.

(** X1. Every score the fallback scorer stores is a finite number between
    0 and 1, whatever the texts and the metric name. *)
Theorem fallback_scores_in_unit_interval (input_text output_text : string)
    (metrics : list string) (metric : string) (s : pyfloat) :
  _fallback_evaluation input_text output_text metrics !! metric = Some s →
  ∃ q, s = Fin q ∧ (0 <= q <= 1)%Q.
Proof.
  intros [_ ->]%fallback_lookup_inv. apply fallback_score_unit.
Qed.

Lemma fallback_scores_in_unit_interval_witness :
  _fallback_evaluation "What is Rocq?" "Rocq is a proof assistant"
                       ["relevance"; "toxicity"] !! "relevance"
  = Some (Fin (1 # 3))
  ∧ ∃ q, Fin (1 # 3) = Fin q ∧ (0 <= q <= 1)%Q.
Proof.
  assert (H : _fallback_evaluation "What is Rocq?" "Rocq is a proof assistant"
                ["relevance"; "toxicity"] !! "relevance"
              = Some (Fin (1 # 3))) by (vm_compute; reflexivity).
  split; [exact H|].
  exact (fallback_scores_in_unit_interval _ _ _ _ _ H).
Defined.

Lemma fill_same_keys {V} (f : string → V) (keys keys' : list string) :
  (∀ k, k ∈ keys ↔ k ∈ keys') → fill f ∅ keys = fill f ∅ keys'.
Proof.
  intros Hkeys. apply map_eq. intros k. rewrite !fill_lookup.
  destruct (decide (k ∈ keys)) as [Hin|Hnin].
  - rewrite decide_True; [done | by apply Hkeys].
  - rewrite decide_False; [done | by rewrite <- Hkeys].
Qed.

(** X2. The mappings built by the three loops over [metrics] (fallback
    scores, neutral scores, normalised engine scores) depend on the
    requested names as a set only: repeating a name or changing the order
    changes nothing. *)
Theorem scores_depend_on_metric_set (input_text output_text : string)
    (result_dict : gmap string pyfloat) (metrics metrics' : list string) :
  (∀ metric, metric ∈ metrics ↔ metric ∈ metrics') →
  _fallback_evaluation input_text output_text metrics
  = _fallback_evaluation input_text output_text metrics'
  ∧ neutral_scores metrics = neutral_scores metrics'
  ∧ normalize result_dict metrics = normalize result_dict metrics'.
Proof.
  intros Hset. split; [|split].
  - by apply (fill_same_keys (fallback_score input_text output_text)).
  - by apply (fill_same_keys (λ _, Fin (1 # 2))).
  - by apply (fill_same_keys (normalized_score result_dict)).
Qed.

Lemma scores_depend_on_metric_set_witness :
  let metrics := ["toxicity"; "relevance"; "toxicity"] in
  let metrics' := ["relevance"; "toxicity"] in
  (∀ metric, metric ∈ metrics ↔ metric ∈ metrics')
  ∧ _fallback_evaluation "a b" "b c" metrics
    = _fallback_evaluation "a b" "b c" metrics'
  ∧ neutral_scores metrics = neutral_scores metrics'
  ∧ normalize ∅ metrics = normalize ∅ metrics'.
Proof.
  intros metrics metrics'.
  assert (Hset : ∀ metric, metric ∈ metrics ↔ metric ∈ metrics').
  { intros metric. unfold metrics, metrics'.
    rewrite !elem_of_cons, elem_of_nil. tauto. }
  split; [exact Hset|].
  exact (scores_depend_on_metric_set "a b" "b c" ∅ metrics metrics' Hset).
Defined.

Lemma int_ratio_eq_iff (n k d : nat) :
  0 < d →
  (inject_Z (Z.of_nat n) / inject_Z (Z.of_nat d) == inject_Z (Z.of_nat k))%Q
  ↔ n = k * d.
Proof.
  intros Hd.
  assert (Hnz : ¬ (inject_Z (Z.of_nat d) == 0)%Q).
  { change 0%Q with (inject_Z 0). rewrite inject_Z_injective. lia. }
  split.
  - intros H.
    assert (H' : (inject_Z (Z.of_nat n)
                  == inject_Z (Z.of_nat k) * inject_Z (Z.of_nat d))%Q).
    { rewrite <- H. field. exact Hnz. }
    rewrite <- inject_Z_mult, inject_Z_injective in H'. lia.
  - intros ->. rewrite Nat2Z.inj_mul, inject_Z_mult. field. exact Hnz.
Qed.

Lemma relevance_ratio_le_1 (input_text output_text : string) :
  (relevance_ratio input_text output_text <= 1)%Q.
Proof.
  unfold relevance_ratio.
  set (I := py_set (py_split (py_lower input_text))).
  set (O := py_set (py_split (py_lower output_text))).
  apply Qle_shift_div_r.
  - change 0%Q with (inject_Z 0). rewrite <- Zlt_Qlt. lia.
  - rewrite Qmult_1_l, <- Zle_Qle.
    assert (size (I ∩ O) ≤ size I)
      by (apply subseteq_size, intersection_subseteq_l).
    lia.
Qed.

Lemma py_min_id (x : Q) : (x <= 1)%Q → (py_min 1 x == x)%Q.
Proof.
  intros Hx. unfold py_min. destruct (x ?= 1)%Q eqn:Hc.
  - symmetry. by apply Qeq_alt.
  - reflexivity.
  - apply Qgt_alt in Hc. exfalso. apply (Qlt_irrefl 1).
    eapply Qlt_le_trans; eauto.
Qed.

(** X3. For the fallback 'relevance' score the cap at 1 never acts (the
    score is the ratio itself); the score is 0 exactly when input and output
    share no token, in particular for an input without tokens, and 1 exactly
    when the input has a token and all its tokens occur in the output. *)
Theorem fallback_relevance_extremes (input_text output_text : string)
    (metrics : list string) :
  "relevance" ∈ metrics →
  let I := py_set (py_split (py_lower input_text)) in
  let O := py_set (py_split (py_lower output_text)) in
  ∃ q,
    _fallback_evaluation input_text output_text metrics !! "relevance"
    = Some (Fin q)
    ∧ (q == relevance_ratio input_text output_text)%Q
    ∧ ((q == 0)%Q ↔ I ## O)
    ∧ ((q == 1)%Q ↔ I ≠ ∅ ∧ I ⊆ O).
Proof.
  intros Hin I O.
  exists (py_min 1 (relevance_ratio input_text output_text)).
  split; [by rewrite fallback_lookup|].
  assert (Hq : (py_min 1 (relevance_ratio input_text output_text)
                == relevance_ratio input_text output_text)%Q)
    by apply py_min_id, relevance_ratio_le_1.
  split; [exact Hq|]. rewrite !Hq. unfold relevance_ratio. fold I O.
  assert (Hd : 0 < size I `max` 1) by lia.
  split.
  - rewrite (int_ratio_eq_iff _ 0 _ Hd). rewrite disjoint_intersection_L.
    split.
    + intros H0. apply size_empty_inv in H0. by apply leibniz_equiv.
    + intros ->. by rewrite size_empty.
  - rewrite (int_ratio_eq_iff _ 1 _ Hd). split.
    + intros H1. destruct (decide (I = ∅)) as [HI|HI].
      * exfalso. rewrite HI in H1.
        rewrite intersection_empty_l_L, size_empty in H1. simpl in H1. lia.
      * split; [done|].
        assert (size I ≠ 0)
          by (intros H0%size_empty_inv; by apply HI, leibniz_equiv).
        assert (HIO : I ∩ O ≡ I).
        { apply set_subseteq_size_equiv;
            [apply intersection_subseteq_l | lia]. }
        intros x Hx. apply HIO in Hx.
        by apply elem_of_intersection in Hx as [_ ?].
    + intros [HI Hsub].
      assert (size I ≠ 0)
        by (intros H0%size_empty_inv; by apply HI, leibniz_equiv).
      rewrite (subseteq_intersection_1_L I O Hsub). lia.
Qed.

Lemma fallback_relevance_extremes_witness :
  let I := py_set (py_split (py_lower "")) in
  let O := py_set (py_split (py_lower "anything")) in
  "relevance" ∈ ["relevance"]
  ∧ ∃ q,
      _fallback_evaluation "" "anything" ["relevance"] !! "relevance"
      = Some (Fin q)
      ∧ (q == relevance_ratio "" "anything")%Q
      ∧ ((q == 0)%Q ↔ I ## O)
      ∧ ((q == 1)%Q ↔ I ≠ ∅ ∧ I ⊆ O).
Proof.
  intros I O.
  assert (Hin : "relevance" ∈ ["relevance"]) by apply list_elem_of_here.
  split; [exact Hin|].
  exact (fallback_relevance_extremes "" "anything" ["relevance"] Hin).
Defined.

Lemma py_lower_app (s t : string) :
  py_lower (s +:+ t) = py_lower s +:+ py_lower t.
Proof.
  induction s as [|c s IH]; [done|].
  change (String (py_lower_char c) (py_lower (s +:+ t))
          = String (py_lower_char c) (py_lower s +:+ py_lower t)).
  by rewrite IH.
Qed.

Lemma fill_ext {V} (f g : string → V) (keys : list string) :
  (∀ k, f k = g k) → fill f ∅ keys = fill g ∅ keys.
Proof.
  intros Hfg. apply map_eq. intros k. rewrite !fill_lookup.
  case_decide; [by rewrite Hfg | done].
Qed.

(** X4. The fallback scorer reads its texts only through their lower-cased
    form and through the length of the output: two pairs of texts that
    agree after lower-casing, with outputs of the same length, get the same
    scores for every metric. *)
Theorem fallback_ignores_case (input_text input_text' : string)
    (output_text output_text' : string) (metrics : list string) :
  py_lower input_text = py_lower input_text' →
  py_lower output_text = py_lower output_text' →
  String.length output_text = String.length output_text' →
  _fallback_evaluation input_text output_text metrics
  = _fallback_evaluation input_text' output_text' metrics.
Proof.
  intros Hi Ho Hlen.
  apply (fill_ext (fallback_score input_text output_text)
                  (fallback_score input_text' output_text')).
  intros metric. unfold fallback_score, relevance_ratio, toxic_count.
  by rewrite Hi, Ho, Hlen.
Qed.

Lemma fallback_ignores_case_witness :
  py_lower "What IS Rocq" = py_lower "what is ROCQ"
  ∧ py_lower "I HATE it" = py_lower "i hate IT"
  ∧ String.length "I HATE it" = String.length "i hate IT"
  ∧ _fallback_evaluation "What IS Rocq" "I HATE it"
                         ["relevance"; "correctness"; "toxicity"]
    = _fallback_evaluation "what is ROCQ" "i hate IT"
                           ["relevance"; "correctness"; "toxicity"].
Proof.
  assert (Hi : py_lower "What IS Rocq" = py_lower "what is ROCQ")
    by (vm_compute; reflexivity).
  assert (Ho : py_lower "I HATE it" = py_lower "i hate IT")
    by (vm_compute; reflexivity).
  assert (Hlen : String.length "I HATE it" = String.length "i hate IT")
    by reflexivity.
  split; [exact Hi|]. split; [exact Ho|]. split; [exact Hlen|].
  exact (fallback_ignores_case _ _ _ _ _ Hi Ho Hlen).
Defined.

Lemma is_substring_extend (w s pre post : string) :
  is_substring w s → is_substring w (pre +:+ s +:+ post).
Proof.
  intros (a & b & ->). exists (pre +:+ a), (b +:+ post).
  by rewrite !append_assoc.
Qed.

Lemma toxic_count_extend (output_text pre post : string) :
  toxic_count output_text ≤ toxic_count (pre +:+ output_text +:+ post).
Proof.
  unfold toxic_count. apply filter_length_le. intros word.
  rewrite !py_contains_spec, !py_lower_app. apply is_substring_extend.
Qed.

Lemma toxic_count_le_6 (output_text : string) : toxic_count output_text ≤ 6.
Proof.
  unfold toxic_count.
  etrans; [apply length_filter|]. done.
Qed.

(** X5. The fallback 'toxicity' score takes one of the values 0, 1/3, 2/3
    and 1, and text added before or after the output never lowers it. *)
Theorem fallback_toxicity_grows (input_text output_text pre post : string)
    (metrics : list string) :
  "toxicity" ∈ metrics →
  ∃ q q',
    _fallback_evaluation input_text output_text metrics !! "toxicity"
    = Some (Fin q)
    ∧ _fallback_evaluation input_text (pre +:+ output_text +:+ post) metrics
        !! "toxicity" = Some (Fin q')
    ∧ (q <= q')%Q
    ∧ (q == 0 ∨ q == 1 # 3 ∨ q == 2 # 3 ∨ q == 1)%Q.
Proof.
  intros Hin. eexists _, _.
  split; [by rewrite fallback_lookup|].
  split; [by rewrite fallback_lookup|]. split.
  - apply py_min_le_mono, (int_ratio_le _ _ 3); [lia|].
    apply toxic_count_extend.
  - pose proof (toxic_count_le_6 output_text) as H6.
    destruct (toxic_count output_text) as [|[|[|[|[|[|[|n]]]]]]];
      try lia; vm_compute; auto.
Qed.

Lemma fallback_toxicity_grows_witness :
  "toxicity" ∈ ["toxicity"]
  ∧ ∃ q q',
      _fallback_evaluation "" "you idiot" ["toxicity"] !! "toxicity"
      = Some (Fin q)
      ∧ _fallback_evaluation "" ("I hate " +:+ "you idiot" +:+ ", stupid")
                             ["toxicity"] !! "toxicity" = Some (Fin q')
      ∧ (q <= q')%Q
      ∧ (q == 0 ∨ q == 1 # 3 ∨ q == 2 # 3 ∨ q == 1)%Q.
Proof.
  assert (Hin : "toxicity" ∈ ["toxicity"]) by apply list_elem_of_here.
  split; [exact Hin|].
  exact (fallback_toxicity_grows "" "you idiot" "I hate " ", stupid"
                                 ["toxicity"] Hin).
Defined.


(** * Further properties of the engine path *)

Lemma engine_metric_other (metric : string) :
  metric ∉ ["relevance"; "correctness"; "similarity"; "faithfulness";
            "toxicity"; "helpfulness"; "clarity"] →
  engine_metric metric = None.
Proof.
  intros Hnot. unfold engine_metric, ragas_metric_map.
  by rewrite (not_elem_of_list_to_map_1 _ metric).
Qed.

Lemma native_key_of_bound (metric : string) :
  supported_ragas_metrics !! metric = export_name <$> engine_metric metric.
Proof.
  destruct (decide (metric ∈ ["relevance"; "correctness"; "similarity";
                              "faithfulness"; "toxicity"; "helpfulness";
                              "clarity"])) as [Hin|Hnot].
  - rewrite !elem_of_cons, elem_of_nil in Hin.
    destruct Hin as [->|[->|[->|[->|[->|[->|[->|[]]]]]]]];
      vm_compute; reflexivity.
  - rewrite engine_metric_other by done.
    rewrite supported_lookup_other; [done|].
    rewrite !elem_of_cons, elem_of_nil in Hnot.
    rewrite !elem_of_cons, elem_of_nil. intuition congruence.
Qed.

(** X6. The two tables agree: a requested name has an engine-native key in
    the table of [__init__] exactly when the binding loop binds an engine
    metric for it, and the key is the name of the metric that is bound; the
    only name the local table knows without binding anything is
    'toxicity'. *)
Theorem tables_agree (metric : string) :
  supported_ragas_metrics !! metric = export_name <$> engine_metric metric
  ∧ (is_Some (ragas_metric_map !! metric) ∧ engine_metric metric = None
     ↔ metric = "toxicity")
  ∧ (is_Some (engine_metric metric)
     ↔ metric ∈ ["relevance"; "correctness"; "similarity"; "faithfulness";
                 "helpfulness"; "clarity"]).
Proof.
  split; [apply native_key_of_bound|].
  destruct (decide (metric ∈ ["relevance"; "correctness"; "similarity";
                              "faithfulness"; "toxicity"; "helpfulness";
                              "clarity"])) as [Hin|Hnot].
  - rewrite !elem_of_cons, elem_of_nil in Hin.
    rewrite !elem_of_cons, elem_of_nil.
    destruct Hin as [->|[->|[->|[->|[->|[->|[->|[]]]]]]]];
      repeat match goal with
      | |- context [ragas_metric_map !! ?s] =>
          let v := eval vm_compute in (ragas_metric_map !! s) in
          change (ragas_metric_map !! s) with v
      | |- context [engine_metric ?s] =>
          let v := eval vm_compute in (engine_metric s) in
          change (engine_metric s) with v
      end;
      rewrite !is_Some_alt; intuition (discriminate || auto).
  - assert (Hmap : ragas_metric_map !! metric = None)
      by (by apply not_elem_of_list_to_map_1).
    rewrite engine_metric_other, Hmap by done.
    rewrite !elem_of_cons, elem_of_nil in Hnot.
    rewrite !elem_of_cons, elem_of_nil.
    rewrite !is_Some_alt. intuition congruence.
Qed.

Lemma evaluate_engine_scores (w : world) (input_text output_text : string)
    (metrics : list string) (params : gmap string string) (st : state)
    (call : list dataset_row * list metric_obj) :
  engine_calls (evaluate w input_text output_text metrics params st).2
  = engine_calls st ++ [call] →
  (evaluate w input_text output_text metrics params st).1
  = Ok (engine_scores w input_text output_text metrics call).
Proof.
  intros Hcalls.
  destruct (evaluate_spec w input_text output_text metrics params
              (engine_calls st) st eq_refl)
    as [[Hc _]|(ctxs & bm & Hc & Hr)].
  - rewrite Hc in Hcalls. by apply app_singleton_neq in Hcalls.
  - rewrite Hc in Hcalls. apply app_singleton_inv in Hcalls. by subst call.
Qed.

Lemma normalized_score_bound (result_dict : gmap string pyfloat)
    (metric : string) :
  normalized_score result_dict metric
  = match engine_metric metric ≫= λ m, result_dict !! export_name m with
    | Some value => if isnan value then Fin (7 # 10) else value
    | None => Fin 0
    end.
Proof.
  unfold normalized_score.
  rewrite engine_value_native. unfold native_value.
  rewrite native_key_of_bound. by destruct (engine_metric metric).
Qed.

(** X7. When the engine is called and answers, a requested name for which
    no engine metric is bound ('toxicity', or any unknown name) gets the
    score 0.0: on this path toxicity is not measured at all, the heuristic
    of the fallback scorer is not consulted. *)
Theorem engine_path_zero_for_unbound (w : world)
    (input_text output_text : string) (metrics : list string)
    (params : gmap string string) (st : state)
    (call : list dataset_row * list metric_obj)
    (result_dict : gmap string pyfloat) (rest : list (gmap string pyfloat))
    (metric : string) :
  engine_calls (evaluate w input_text output_text metrics params st).2
  = engine_calls st ++ [call] →
  ev_ragas w call.1 call.2 = Ok (result_dict :: rest) →
  metric ∈ metrics →
  engine_metric metric = None →
  ∃ scores,
    (evaluate w input_text output_text metrics params st).1 = Ok scores
    ∧ scores !! metric = Some (Fin 0).
Proof.
  intros Hcalls Hev Hin Hnone. eexists.
  split; [by apply evaluate_engine_scores|].
  unfold engine_scores. rewrite Hev, normalize_lookup by done.
  by rewrite normalized_score_bound, Hnone.
Qed.

Lemma engine_path_zero_for_unbound_witness :
  let w := sample_world "asyncio" instance_exports constant_engine in
  let st := sample_state ∅ in
  let metrics := ["relevance"; "toxicity"] in
  let run := evaluate w "q" "I hate this, you idiot" metrics ∅ st in
  ∃ call result_dict,
    engine_calls run.2 = engine_calls st ++ [call]
    ∧ ev_ragas w call.1 call.2 = Ok [result_dict]
    ∧ "toxicity" ∈ metrics
    ∧ engine_metric "toxicity" = None
    ∧ ∃ scores, run.1 = Ok scores ∧ scores !! "toxicity" = Some (Fin 0).
Proof.
  intros w st metrics run.
  eexists _, _.
  split; [vm_compute; reflexivity|].
  split; [vm_compute; reflexivity|].
  assert (Hin : "toxicity" ∈ metrics)
    by (apply (bool_decide_unpack _); vm_compute; exact I).
  split; [exact Hin|]. split; [reflexivity|].
  refine (engine_path_zero_for_unbound w "q" "I hate this, you idiot"
            metrics ∅ st _ _ [] "toxicity" _ _ Hin eq_refl).
  - vm_compute. reflexivity.
  - vm_compute. reflexivity.
Defined.

(** X8. When the engine is called and answers, two requested names bound
    to the same engine metric get the same score: 'helpfulness' always
    repeats 'relevance' and 'clarity' always repeats 'similarity'. *)
Theorem engine_path_proxies (w : world)
    (input_text output_text : string) (metrics : list string)
    (params : gmap string string) (st : state)
    (call : list dataset_row * list metric_obj)
    (result_dict : gmap string pyfloat) (rest : list (gmap string pyfloat))
    (metric metric' : string) :
  engine_calls (evaluate w input_text output_text metrics params st).2
  = engine_calls st ++ [call] →
  ev_ragas w call.1 call.2 = Ok (result_dict :: rest) →
  metric ∈ metrics → metric' ∈ metrics →
  engine_metric metric = engine_metric metric' →
  (∃ scores s,
     (evaluate w input_text output_text metrics params st).1 = Ok scores
     ∧ scores !! metric = Some s ∧ scores !! metric' = Some s)
  ∧ engine_metric "helpfulness" = engine_metric "relevance"
  ∧ engine_metric "clarity" = engine_metric "similarity".
Proof.
  intros Hcalls Hev Hin Hin' Hsame. split; [|by split].
  eexists _, _. split; [by apply evaluate_engine_scores|].
  unfold engine_scores. rewrite Hev, !normalize_lookup by done.
  by rewrite !normalized_score_bound, Hsame.
Qed.

Lemma engine_path_proxies_witness :
  let w := sample_world "asyncio" instance_exports constant_engine in
  let st := sample_state ∅ in
  let metrics := ["helpfulness"; "relevance"] in
  let run := evaluate w "q" "a" metrics ∅ st in
  ∃ call result_dict,
    engine_calls run.2 = engine_calls st ++ [call]
    ∧ ev_ragas w call.1 call.2 = Ok [result_dict]
    ∧ "helpfulness" ∈ metrics ∧ "relevance" ∈ metrics
    ∧ engine_metric "helpfulness" = engine_metric "relevance"
    ∧ ∃ scores s, run.1 = Ok scores
                  ∧ scores !! "helpfulness" = Some s
                  ∧ scores !! "relevance" = Some s.
Proof.
  intros w st metrics run.
  eexists _, _.
  split; [vm_compute; reflexivity|].
  split; [vm_compute; reflexivity|].
  assert (Hin : "helpfulness" ∈ metrics)
    by (apply (bool_decide_unpack _); vm_compute; exact I).
  assert (Hin' : "relevance" ∈ metrics)
    by (apply (bool_decide_unpack _); vm_compute; exact I).
  split; [exact Hin|]. split; [exact Hin'|]. split; [reflexivity|].
  refine (proj1 (engine_path_proxies w "q" "a" metrics ∅ st _ _ []
                   "helpfulness" "relevance" _ _ Hin Hin' eq_refl)).
  - vm_compute. reflexivity.
  - vm_compute. reflexivity.
Defined.


(** * Further properties of the failure paths *)

Section fails_rules.
Context {A B : Type} (I : state → Prop).

Lemma fails_raise (e : exn) : fails_in (A := A) I (raise e).
Proof. apply hoare_raise. eauto. Qed.

Lemma fails_lift (e : exn) : fails_in (A := A) I (lift (Raise e)).
Proof. apply hoare_lift. eauto. Qed.

Lemma fails_bind_l (m : M A) (k : A → M B) :
  fails_in I m → fails_in I (m ≫= k).
Proof.
  intros Hm.
  apply (hoare_bind _ _ _ (λ r st, I st ∧ ∃ e, r = Raise e)); [exact Hm | |].
  - intros a st [_ [e He]]. discriminate He.
  - intros e st [HI _]. eauto.
Qed.

Lemma fails_bind_r (m : M A) (k : A → M B) :
  stable I m → (∀ a, fails_in I (k a)) → fails_in I (m ≫= k).
Proof.
  intros Hm Hk.
  apply (hoare_bind _ _ _ (λ _, I)); [exact Hm | exact Hk | eauto].
Qed.

Lemma fails_bind_ok (a : A) (k : A → M B) :
  fails_in I (k a) → fails_in I (lift (Ok a) ≫= k).
Proof. intros Hk st HI. exact (Hk st HI). Qed.

Lemma fails_reraise (body : M A) :
  fails_in I body → fails_in I (try_except body (λ e, raise e)).
Proof.
  intros Hm.
  apply (hoare_try_except _ _ _ (λ r st, I st ∧ ∃ e, r = Raise e));
    [exact Hm | |].
  - intros a st [_ [e He]]. discriminate He.
  - intros e. apply hoare_raise. intros st [HI _]. eauto.
Qed.
End fails_rules.

(** When [_run_ragas_async] fails before the engine, [evaluate] answers
    with the fallback scorer and the engine is not called, on both paths. *)
Lemma evaluate_when_async_fails (w : world) (input_text output_text : string)
    (metrics : list string) (params : gmap string string) :
  (∀ E C, fails_in (unchanged E C)
            (_run_ragas_async w input_text output_text metrics params)) →
  ∀ st,
    (evaluate w input_text output_text metrics params st).1
    = Ok (_fallback_evaluation input_text output_text metrics)
    ∧ engine_calls (evaluate w input_text output_text metrics params st).2
      = engine_calls st.
Proof.
  intros Hfail st.
  unfold evaluate, try_except, mbind, M_bind, bind, detect_uvloop.
  assert (Hdirect :
    ∀ st0, engine_calls st0 = engine_calls st →
      ∃ e st', _run_ragas_async w input_text output_text metrics params st0
               = (Raise e, st')
               ∧ engine_calls st' = engine_calls st).
  { intros st0 Hc.
    pose proof (Hfail (environ st0) (engine_calls st) st0 (conj eq_refl Hc))
      as [[_ Hc'] [e He]].
    destruct (_run_ragas_async _ _ _ _ _ st0) as [r st']; simpl in *.
    subst r. by exists e, st'. }
  destruct (get_event_loop w) as [loop_type|e]; simpl.
  - destruct (py_contains "uvloop" loop_type).
    + unfold _run_ragas_sync, mbind, M_bind, bind, try_finally, try_except.
      pose proof (set_provider_environment_spec params (environ st)
                    (engine_calls st) st (conj eq_refl eq_refl)) as Hset.
      destruct (set_provider_environment params st) as [r1 st1].
      simpl in Hset. destruct Hset as (-> & Hc1 & _).
      destruct (settable params); simpl; [|by split].
      destruct (Hdirect st1 Hc1) as (e & st2 & -> & Hc2). simpl.
      pose proof (clean_up_environment_spec (provider_variables params)
                    [] st2) as (Hr & Hc3 & _).
      destruct (clean_up_environment (provider_variables params) st2)
        as [r3 st3]; simpl in *. subst r3. simpl.
      destruct e; simpl; split; congruence.
    + destruct (Hdirect st eq_refl) as (e & st2 & -> & Hc2).
      by destruct e.
  - destruct e; simpl; try (by split).
    destruct (Hdirect st eq_refl) as (e & st2 & -> & Hc2). by destruct e.
Qed.

Lemma bind_metrics_unbound (w : world) (llm_h : handle) (emb : option handle)
    (metrics : list string) (supported_metrics : list loc) (bound : bool)
    (st : state) :
  Forall (λ metric, engine_metric metric = None) metrics →
  bind_metrics w llm_h emb metrics supported_metrics bound st
  = (Ok (supported_metrics, bound), st).
Proof.
  induction 1 as [|metric rest Hnone _ IH]; simpl; [done|].
  unfold engine_metric in Hnone.
  by destruct (ragas_metric_map !! metric) as [[m|]|].
Qed.

Lemma fails_default_unbound (I : state → Prop) (w : world) (llm_h : handle)
    (emb : option handle) :
  (∀ m, stable I (instantiate w m)) →
  fails_in I (default_metrics w llm_h emb false).
Proof.
  intros Hinst. unfold default_metrics.
  apply fails_bind_r; [apply Hinst | intros l].
  apply fails_bind_l, fails_raise.
Qed.

Lemma stable_prefix (w : world) (params : gmap string string)
    (E : gmap string string)
    (C : list (list dataset_row * list metric_obj)) {B}
    (k : string * gmap string string → M B) :
  (∀ pc, fails_in (unchanged E C) (k pc)) →
  fails_in (unchanged E C)
    (import_ w ragas;; import_ w ragas_metrics;; import_ w datasets;;
     lift (detect_provider w params) ≫= k).
Proof.
  intros Hk.
  do 3 (apply fails_bind_r; [apply stable_import | intros _]).
  apply fails_bind_r; [apply stable_lift | exact Hk].
Qed.

(** X9. When no requested name has an engine metric ('toxicity', unknown
    names, or no name at all), the engine is never called: the default
    metric of lines 234-246 reads [MetricWithLLM] before any import has
    bound it, and [evaluate] returns the fallback scores. *)
Theorem no_bound_metric_falls_back (w : world)
    (input_text output_text : string) (metrics : list string)
    (params : gmap string string) (st : state) :
  Forall (λ metric, engine_metric metric = None) metrics →
  (evaluate w input_text output_text metrics params st).1
  = Ok (_fallback_evaluation input_text output_text metrics)
  ∧ engine_calls (evaluate w input_text output_text metrics params st).2
    = engine_calls st.
Proof.
  intros Hnone. apply evaluate_when_async_fails. intros E C.
  unfold _run_ragas_async. apply stable_prefix.
  intros [provider_type llm_config].
  apply fails_bind_r; [apply unchanged_make_llm | intros llm_h].
  apply fails_bind_r; [apply unchanged_make_embeddings | intros emb].
  intros st0 Hst0. unfold mbind, M_bind, bind.
  rewrite bind_metrics_unbound by done.
  pose proof (fails_default_unbound (unchanged E C) w llm_h emb
                (unchanged_instantiate E C w) st0 Hst0) as [HI [e He]].
  destruct (default_metrics w llm_h emb false st0) as [r st1]; simpl in *.
  subst r. eauto.
Qed.

Lemma no_bound_metric_falls_back_witness :
  let w := sample_world "<class 'uvloop.Loop'>" instance_exports
                        constant_engine in
  let metrics := ["toxicity"; "banana"] in
  Forall (λ metric, engine_metric metric = None) metrics
  ∧ (evaluate w "q" "a" metrics ∅ (sample_state ∅)).1
    = Ok (_fallback_evaluation "q" "a" metrics)
  ∧ engine_calls (evaluate w "q" "a" metrics ∅ (sample_state ∅)).2
    = engine_calls (sample_state ∅).
Proof.
  intros w metrics.
  assert (Hnone : Forall (λ metric, engine_metric metric = None) metrics)
    by (repeat constructor).
  split; [exact Hnone|].
  exact (no_bound_metric_falls_back w "q" "a" metrics ∅ (sample_state ∅)
           Hnone).
Defined.

(** X10. When no LLM handle can be made (provider detection, the
    provider's constructor or the wrapper raises), [evaluate] returns the
    fallback scores and the engine is never called. *)
Theorem llm_failure_falls_back (w : world)
    (input_text output_text : string) (metrics : list string)
    (params : gmap string string) (st : state) :
  llm_unavailable w params →
  (evaluate w input_text output_text metrics params st).1
  = Ok (_fallback_evaluation input_text output_text metrics)
  ∧ engine_calls (evaluate w input_text output_text metrics params st).2
    = engine_calls st.
Proof.
  intros Hllm. apply evaluate_when_async_fails. intros E C.
  unfold _run_ragas_async, llm_unavailable in *.
  do 3 (apply fails_bind_r; [apply stable_import | intros _]).
  destruct (detect_provider w params) as [[provider_type llm_config]|e];
    [|apply fails_bind_l, fails_lift].
  apply fails_bind_ok. apply fails_bind_l.
  unfold make_llm. apply fails_reraise.
  destruct (create_instance w provider_type llm_config) as [langchain_llm|e];
    [|apply fails_bind_l, fails_lift].
  apply fails_bind_ok.
  apply fails_bind_r; [apply stable_import | intros _].
  destruct (LangchainLLMWrapper w langchain_llm) as [llm_h|e];
    [done | apply fails_bind_l, fails_lift].
Qed.

Lemma llm_failure_falls_back_witness :
  llm_unavailable broken_provider_world ∅
  ∧ (evaluate broken_provider_world "What is the capital of France?"
              "Paris is the capital of France." ["relevance"; "correctness"]
              ∅ (sample_state ∅)).1
    = Ok (_fallback_evaluation "What is the capital of France?"
            "Paris is the capital of France." ["relevance"; "correctness"])
  ∧ engine_calls
      (evaluate broken_provider_world "What is the capital of France?"
                "Paris is the capital of France." ["relevance"; "correctness"]
                ∅ (sample_state ∅)).2
    = engine_calls (sample_state ∅).
Proof.
  assert (Hllm : llm_unavailable broken_provider_world ∅) by exact I.
  split; [exact Hllm|].
  exact (llm_failure_falls_back broken_provider_world
           "What is the capital of France?"
           "Paris is the capital of France." ["relevance"; "correctness"]
           ∅ (sample_state ∅) Hllm).
Defined.

(** X11. Building the embeddings handle never raises and never changes the
    state: whatever fails inside (an import, a missing configuration key,
    the client's constructor, the wrapper), the outcome is [None]; a handle
    comes out only for the provider 'azure_openai', with both imports
    working and the four configuration keys present. *)
Theorem embeddings_failure_is_not_fatal (w : world) (provider_type : string)
    (llm_config params : gmap string string) (st : state) :
  ∃ emb : option handle,
    make_embeddings w provider_type llm_config params st = (Ok emb, st)
    ∧ (is_Some emb →
       provider_type = "azure_openai"
       ∧ importable w langchain_openai = true
       ∧ importable w ragas_embeddings = true
       ∧ is_Some (llm_config !! "deployment_name")
       ∧ is_Some (llm_config !! "api_base")
       ∧ is_Some (llm_config !! "api_version")
       ∧ is_Some (llm_config !! "api_key")).
Proof.
  assert (Hnone : ∀ P : Prop, is_Some (@None handle) → P)
    by (intros P [x Hx]; discriminate Hx).
  unfold make_embeddings, try_except, mbind, M_bind, bind, import_, getitem.
  case_decide as Hp; [|eexists; split; [reflexivity | apply Hnone]].
  destruct (importable w langchain_openai);
    [|eexists; split; [reflexivity | apply Hnone]].
  destruct (importable w ragas_embeddings);
    [|eexists; split; [reflexivity | apply Hnone]].
  simpl.
  destruct (llm_config !! "deployment_name") as [dn|];
    [|eexists; split; [reflexivity | apply Hnone]].
  destruct (llm_config !! "api_base") as [ab|];
    [|eexists; split; [reflexivity | apply Hnone]].
  destruct (llm_config !! "api_version") as [av|];
    [|eexists; split; [reflexivity | apply Hnone]].
  destruct (llm_config !! "api_key") as [ak|];
    [|eexists; split; [reflexivity | apply Hnone]].
  simpl. unfold lift.
  destruct (AzureOpenAIEmbeddings w _ ab _ av ak) as [h|e];
    [|eexists; split; [reflexivity | apply Hnone]].
  simpl.
  destruct (LangchainEmbeddingsWrapper w h) as [h'|e];
    [|eexists; split; [reflexivity | apply Hnone]].
  simpl. destruct (embed_query w h);
    (eexists; split; [reflexivity | intros _; repeat split; eauto]).
Qed.


Section extensionality.
Context {A B : Type}.

Lemma bind_ext (m m' : M A) (k k' : A → M B) (st : state) :
  m st = m' st → (∀ a st', k a st' = k' a st') →
  (m ≫= k) st = (m' ≫= k') st.
Proof.
  intros Hm Hk. unfold mbind, M_bind, bind. rewrite Hm.
  destruct (m' st) as [[a|e] st']; [apply Hk | done].
Qed.

Lemma try_except_ext (body body' : M A) (handler : exn → M A)
    (st : state) :
  body st = body' st →
  try_except body handler st = try_except body' handler st.
Proof. intros Hm. unfold try_except. by rewrite Hm. Qed.

Lemma try_finally_ext (body body' : M A) (cleanup : M unit) (st : state) :
  body st = body' st →
  try_finally body cleanup st = try_finally body' cleanup st.
Proof. intros Hm. unfold try_finally. by rewrite Hm. Qed.
End extensionality.

Section connectivity_tests.
Context (llm_test embeddings_test : handle → result unit) (w : world).

Lemma make_llm_ignores_test (provider_type : string)
    (llm_config : gmap string string) (st : state) :
  make_llm (with_connectivity_tests llm_test embeddings_test w)
           provider_type llm_config st
  = make_llm w provider_type llm_config st.
Proof.
  unfold make_llm, try_except, mbind, M_bind, bind, import_, lift. simpl.
  destruct (create_instance w provider_type llm_config) as [l|e]; [|done].
  destruct (importable w ragas_llms); [|done]. simpl.
  destruct (LangchainLLMWrapper w l) as [h|e]; [|done].
  by destruct (llm_test l), (agenerate w l).
Qed.

Lemma make_embeddings_ignores_test (provider_type : string)
    (llm_config params : gmap string string) (st : state) :
  make_embeddings (with_connectivity_tests llm_test embeddings_test w)
                  provider_type llm_config params st
  = make_embeddings w provider_type llm_config params st.
Proof.
  unfold make_embeddings, try_except, mbind, M_bind, bind, import_, getitem,
    lift. simpl.
  case_decide; [|done].
  destruct (importable w langchain_openai); [|done].
  destruct (importable w ragas_embeddings); [|done]. simpl.
  destruct (llm_config !! "deployment_name"); [|done].
  destruct (llm_config !! "api_base"); [|done].
  destruct (llm_config !! "api_version"); [|done].
  destruct (llm_config !! "api_key"); [|done]. simpl.
  destruct (AzureOpenAIEmbeddings w _ _ _ _ _) as [h|e]; [|done]. simpl.
  destruct (LangchainEmbeddingsWrapper w h) as [h'|e]; [|done]. simpl.
  by destruct (embeddings_test h), (embed_query w h).
Qed.

Lemma bind_metrics_ignores_test (llm_h : handle) (emb : option handle)
    (metrics : list string) (supported_metrics : list loc) (bound : bool)
    (st : state) :
  bind_metrics (with_connectivity_tests llm_test embeddings_test w)
               llm_h emb metrics supported_metrics bound st
  = bind_metrics w llm_h emb metrics supported_metrics bound st.
Proof.
  revert supported_metrics bound st.
  induction metrics as [|metric rest IH]; intros supp bound st; [done|].
  simpl. destruct (ragas_metric_map !! metric) as [[m|]|]; try apply IH.
  apply bind_ext; [done | intros _ st1].
  apply bind_ext; [done | intros _ st2].
  apply bind_ext; [done | intros l st3].
  apply bind_ext; [done | intros _ st4].
  apply IH.
Qed.

Lemma run_ragas_async_ignores_test (input_text output_text : string)
    (metrics : list string) (params : gmap string string) (st : state) :
  _run_ragas_async (with_connectivity_tests llm_test embeddings_test w)
                   input_text output_text metrics params st
  = _run_ragas_async w input_text output_text metrics params st.
Proof.
  unfold _run_ragas_async.
  do 3 (apply bind_ext; [done | intros _ ?]).
  apply bind_ext; [done | intros [provider_type llm_config] ?].
  apply bind_ext; [apply make_llm_ignores_test | intros llm_h ?].
  apply bind_ext; [apply make_embeddings_ignores_test | intros emb ?].
  apply bind_ext; [apply bind_metrics_ignores_test | intros [supp bound] ?].
  done.
Qed.

(** X12. The two connectivity tests (the test generation of line 142 and
    the test embedding of line 180) never change what [evaluate] does:
    with any other outcomes of the tests the result and the final state are
    the same. *)
Theorem connectivity_tests_do_not_matter (input_text output_text : string)
    (metrics : list string) (params : gmap string string) (st : state) :
  evaluate (with_connectivity_tests llm_test embeddings_test w)
           input_text output_text metrics params st
  = evaluate w input_text output_text metrics params st.
Proof.
  unfold evaluate. apply try_except_ext.
  apply bind_ext; [done | intros is_uvloop st1].
  destruct is_uvloop; [|apply run_ragas_async_ignores_test].
  unfold _run_ragas_sync.
  apply bind_ext; [done | intros vars st2].
  apply try_finally_ext, try_except_ext, run_ragas_async_ignores_test.
Qed.
End connectivity_tests.


(** * Further properties of the binding loop and the engine call *)

Lemma configure_dangling (w : world) (llm_h : handle) (emb : option handle)
    (l : loc) (st : state) :
  heap st !! l = None →
  configure w llm_h emb l st = (Raise OtherException, st).
Proof.
  intros Hl. unfold configure, mbind, M_bind, bind, deref. by rewrite Hl.
Qed.

Lemma configured_ready (w : world) (llm_h : handle) (emb : option handle)
    (o : metric_obj) :
  (configured w llm_h emb o).2 = Ok tt → ready (configured w llm_h emb o).1.
Proof.
  unfold configured, ready.
  destruct (is_MetricWithLLM o) eqn:Hllm; destruct emb as [e|]; simpl;
    rewrite ?Hllm; try destruct (is_MetricWithEmbeddings o);
    match goal with
    | |- context [metric_init w ?o'] => destruct (metric_init w o')
    end; simpl; try discriminate; intros _; split; eauto;
    try (intros ?; congruence).
Qed.

Lemma configured_keeps_ready (w : world) (llm_h : handle)
    (emb : option handle) (o : metric_obj) :
  ready o → ready (configured w llm_h emb o).1.
Proof.
  unfold configured, ready. intros [Hi Hl].
  destruct (is_MetricWithLLM o) eqn:Hllm; destruct emb as [e|]; simpl;
    rewrite ?Hllm; try destruct (is_MetricWithEmbeddings o);
    match goal with
    | |- context [metric_init w ?o'] => destruct (metric_init w o')
    end; simpl; split; eauto.
Qed.

Lemma all_ready_alloc (refs : list loc) (h : list metric_obj)
    (o : metric_obj) :
  all_ready refs h → all_ready refs (h ++ [o]).
Proof.
  intros Hall l Hl. destruct (Hall l Hl) as (o' & Ho' & Hr).
  exists o'. split; [by apply lookup_app_l_Some | done].
Qed.

Lemma all_ready_insert (w : world) (llm_h : handle) (emb : option handle)
    (refs : list loc) (h : list metric_obj) (l : loc) (o : metric_obj) :
  h !! l = Some o →
  all_ready refs h →
  all_ready refs (<[l := (configured w llm_h emb o).1]> h).
Proof.
  intros Ho Hall l' Hl'. destruct (Hall l' Hl') as (o' & Ho' & Hr).
  destruct (decide (l' = l)) as [->|Hne].
  - rewrite list_lookup_insert_eq by (by eapply lookup_lt_Some).
    eexists. split; [done|]. apply configured_keeps_ready.
    rewrite Ho in Ho'. by injection Ho' as <-.
  - rewrite list_lookup_insert_ne by done. eauto.
Qed.

Lemma instantiate_ready (w : world) (ragas_metric : ragas_export)
    (refs : list loc) (st : state) :
  all_ready refs (heap st) →
  ∃ l st1, instantiate w ragas_metric st = (Ok l, st1)
           ∧ all_ready refs (heap st1).
Proof.
  intros Hall. unfold instantiate.
  destruct (ragas_metrics_exports w ragas_metric) as [t|l].
  - eexists _, _. split; [reflexivity|]. by apply all_ready_alloc.
  - by exists l, st.
Qed.

Lemma configure_ready (w : world) (llm_h : handle) (emb : option handle)
    (refs : list loc) (l : loc) (st : state) :
  all_ready refs (heap st) →
  (∃ e, (configure w llm_h emb l st).1 = Raise e)
  ∨ ((configure w llm_h emb l st).1 = Ok tt
     ∧ all_ready (refs ++ [l]) (heap (configure w llm_h emb l st).2)).
Proof.
  intros Hall. destruct (heap st !! l) as [o|] eqn:Hl.
  - rewrite (configure_in_place w llm_h emb l o st Hl). simpl.
    destruct (configured w llm_h emb o).2 as [[]|e] eqn:Hout; [right | eauto].
    split; [done|]. intros l' [Hl'|Hl']%elem_of_app.
    + by apply (all_ready_insert w llm_h emb refs).
    + apply list_elem_of_singleton in Hl' as ->.
      rewrite list_lookup_insert_eq by (by eapply lookup_lt_Some).
      eexists. split; [done|]. by apply configured_ready.
  - rewrite configure_dangling by done. eauto.
Qed.

Lemma count_bound_cons (metric : string) (rest : list string) :
  count_bound (metric :: rest)
  = match engine_metric metric with Some _ => 1 | None => 0 end
    + count_bound rest.
Proof.
  unfold count_bound. rewrite filter_cons.
  destruct (engine_metric metric) as [m|].
  - by rewrite decide_True by eauto.
  - rewrite decide_False; [done|]. by intros [? ?].
Qed.

(** When the binding loop succeeds, it has bound one object for each
    requested name that has an engine metric, each of them ready, and
    [bound] is set as soon as one was bound. *)
Lemma bind_metrics_ready (w : world) (llm_h : handle) (emb : option handle)
    (metrics : list string) (supported_metrics : list loc) (bound : bool)
    (st : state) (s : list loc) (b' : bool) :
  all_ready supported_metrics (heap st) →
  (bind_metrics w llm_h emb metrics supported_metrics bound st).1
  = Ok (s, b') →
  all_ready s (heap (bind_metrics w llm_h emb metrics supported_metrics
                                  bound st).2)
  ∧ length s = length supported_metrics + count_bound metrics
  ∧ (count_bound metrics = 0 → b' = bound).
Proof.
  revert supported_metrics bound st.
  induction metrics as [|metric rest IH]; intros supp bound st Hall; simpl.
  - intros [= <- <-]. unfold count_bound. simpl. split; [done|].
    split; [lia | done].
  - rewrite count_bound_cons. unfold engine_metric at 1 2.
    destruct (ragas_metric_map !! metric) as [[m|]|] eqn:Hmap; simpl;
      try (intros Hrun; by apply IH).
    unfold mbind, M_bind, bind, import_.
    destruct (importable w ragas_metrics_base); [|discriminate].
    destruct (importable w ragas_run_config); [|discriminate]. simpl.
    destruct (instantiate_ready w m supp st Hall) as (l & st1 & -> & Hall1).
    destruct (configure_ready w llm_h emb supp l st1 Hall1)
      as [[e He]|[Hok Hall2]];
      destruct (configure w llm_h emb l st1) as [r st2]; simpl in *;
      subst r; [discriminate|].
    intros Hrun. destruct (IH _ _ _ Hall2 Hrun) as (Hs & Hlen & _).
    split; [done|]. rewrite length_app in Hlen. simpl in Hlen.
    split; [lia | lia].
Qed.


Lemma snapshot_ready (refs : list loc) (h : list metric_obj) :
  all_ready refs h →
  length (omap (λ l, h !! l) refs) = length refs
  ∧ Forall ready (omap (λ l, h !! l) refs).
Proof.
  induction refs as [|l refs IH]; intros Hall; simpl; [by split|].
  destruct (Hall l) as (o & Ho & Hr); [by left|]. rewrite Ho. simpl.
  destruct IH as [Hlen Hfa]; [intros l' Hl'; apply Hall; by right|].
  split; [simpl; by f_equal | by constructor].
Qed.

Lemma run_ragas_async_calls (w : world) (input_text output_text : string)
    (metrics : list string) (params : gmap string string)
    (E : gmap string string)
    (C : list (list dataset_row * list metric_obj)) :
  hoare (unchanged E C)
        (_run_ragas_async w input_text output_text metrics params)
        (λ _ st', ∀ call, call ∈ drop (length C) (engine_calls st') →
                          engine_call_ok w input_text output_text metrics
                                         params call).
Proof.
  assert (Hnone : ∀ st : state, unchanged E C st →
            ∀ call, call ∈ drop (length C) (engine_calls st) →
                    engine_call_ok w input_text output_text metrics params
                                   call).
  { intros st [_ HC] call. rewrite HC, drop_all. by intros ?%elem_of_nil. }
  unfold _run_ragas_async.
  do 3 (apply (hoare_bind _ _ _ (λ _, unchanged E C));
        [apply stable_import | intros _ | intros e st; apply Hnone]).
  apply (hoare_bind _ _ _ (λ _, unchanged E C));
    [apply stable_lift | intros [provider_type llm_config]
    | intros e st; apply Hnone].
  apply (hoare_bind _ _ _ (λ _, unchanged E C));
    [apply unchanged_make_llm | intros llm_h | intros e st; apply Hnone].
  apply (hoare_bind _ _ _ (λ _, unchanged E C));
    [apply unchanged_make_embeddings | intros emb
    | intros e st; apply Hnone].
  intros st Hst. unfold mbind, M_bind, bind.
  pose proof (unchanged_bind_metrics E C w llm_h emb metrics [] false st Hst)
    as Hst1.
  pose proof (bind_metrics_ready w llm_h emb metrics [] false st) as Hready.
  destruct (bind_metrics w llm_h emb metrics [] false st)
    as [[[s b']|e] st1]; simpl in *; [|by apply Hnone].
  destruct (Hready s b') as (Hall & Hlen & Hb);
    [by intros l ?%elem_of_nil | done |].
  destruct s as [|l s].
  - rewrite Hb by (simpl in Hlen; lia).
    pose proof (fails_default_unbound (unchanged E C) w llm_h emb
                  (unchanged_instantiate E C w) st1 Hst1) as [HI [e He]].
    destruct (default_metrics w llm_h emb false st1) as [r st2]; simpl in *.
    subst r. simpl. by apply Hnone.
  - unfold mret, M_ret, ret, lift.
    destruct (from_request_params w params) as [eval_params|e] eqn:Hparams;
      [|by apply Hnone].
    cbn beta iota.
    destruct (snapshot_ready (l :: s) (heap st1) Hall) as [Hsnap Hfa].
    assert (Hcall : ∀ call,
      call ∈ drop (length C)
               (engine_calls st1
                ++ [(make_dataset input_text output_text
                                  (make_contexts eval_params),
                     omap (λ l0, heap st1 !! l0) (l :: s))]) →
      engine_call_ok w input_text output_text metrics params call).
    { intros call. destruct Hst1 as [_ ->]. rewrite drop_app_length.
      intros ->%list_elem_of_singleton. exists eval_params.
      split; [done|]. split; [done|]. simpl in *.
      split; [lia|]. split; [lia | done]. }
    destruct (ev_ragas w _ _) as [[|rd rs]|e]; simpl; exact Hcall.
Qed.

Lemma evaluate_calls_from_async (w : world) (input_text output_text : string)
    (metrics : list string) (params : gmap string string)
    (Φ : list dataset_row * list metric_obj → Prop) :
  (∀ E C, hoare (unchanged E C)
            (_run_ragas_async w input_text output_text metrics params)
            (λ _ st', ∀ call, call ∈ drop (length C) (engine_calls st') →
                              Φ call)) →
  ∀ st call,
    call ∈ new_engine_calls st
             (evaluate w input_text output_text metrics params st).2 →
    Φ call.
Proof.
  intros Hasync st call. unfold new_engine_calls.
  assert (Hdirect : ∀ st0, engine_calls st0 = engine_calls st →
    call ∈ drop (length (engine_calls st))
             (engine_calls (_run_ragas_async w input_text output_text
                              metrics params st0).2) → Φ call).
  { intros st0 Hc. apply (Hasync (environ st0) (engine_calls st) st0).
    by split. }
  unfold evaluate, try_except, mbind, M_bind, bind, detect_uvloop.
  destruct (get_event_loop w) as [loop_type|e]; simpl.
  - destruct (py_contains "uvloop" loop_type).
    + unfold _run_ragas_sync, mbind, M_bind, bind, try_finally, try_except.
      pose proof (set_provider_environment_spec params (environ st)
                    (engine_calls st) st (conj eq_refl eq_refl)) as Hset.
      destruct (set_provider_environment params st) as [r1 st1].
      simpl in Hset. destruct Hset as (-> & Hc1 & _).
      destruct (settable params); simpl;
        [|rewrite Hc1, drop_all; by intros ?%elem_of_nil].
      specialize (Hdirect st1 Hc1).
      destruct (_run_ragas_async w input_text output_text metrics params st1)
        as [r2 st2]; simpl in Hdirect.
      assert (Hbody : (match r2 with
                       | Ok a => (Ok a, st2)
                       | Raise e => raise e st2
                       end) = (r2, st2)) by (by destruct r2).
      rewrite Hbody.
      pose proof (clean_up_environment_spec (provider_variables params)
                    [] st2) as (Hr & Hc3 & _).
      destruct (clean_up_environment (provider_variables params) st2)
        as [r3 st3]; simpl in *. subst r3.
      destruct r2 as [a|[]]; simpl; by rewrite Hc3.
    + specialize (Hdirect st eq_refl).
      destruct (_run_ragas_async w input_text output_text metrics params st)
        as [[a|[]] st2]; simpl in *; exact Hdirect.
  - destruct e; simpl;
      try (rewrite drop_all; by intros ?%elem_of_nil).
    specialize (Hdirect st eq_refl).
    destruct (_run_ragas_async w input_text output_text metrics params st)
      as [[a|[]] st2]; simpl in *; exact Hdirect.
Qed.

Lemma evaluate_call_ok (w : world) (input_text output_text : string)
    (metrics : list string) (params : gmap string string) (st : state)
    (call : list dataset_row * list metric_obj) :
  call ∈ new_engine_calls st
           (evaluate w input_text output_text metrics params st).2 →
  engine_call_ok w input_text output_text metrics params call.
Proof.
  apply (evaluate_calls_from_async w input_text output_text metrics params
           (engine_call_ok w input_text output_text metrics params)).
  apply run_ragas_async_calls.
Qed.

Lemma make_contexts_single (eval_params : eval_parameters) :
  ∃ c, make_contexts eval_params = [c]
       ∧ c ≠ ""
       ∧ (context eval_params = Some c
          ∨ (c = "No specific context provided"
             ∧ (context eval_params = None
                ∨ context eval_params = Some ""))).
Proof.
  unfold make_contexts. destruct (context eval_params) as [[|a c]|]; simpl.
  - eexists. split; [done|]. split; [done|]. right. auto.
  - eexists. split; [done|]. split; [done|]. by left.
  - eexists. split; [done|]. split; [done|]. right. auto.
Qed.

(** X13. The engine always receives exactly one context passage, never an
    empty one: the context of the request parameters when there is a
    non-empty one, else the placeholder "No specific context provided";
    the same list is given under 'contexts' and 'retrieved_contexts'. *)
Theorem engine_context_never_empty (w : world)
    (input_text output_text : string) (metrics : list string)
    (params : gmap string string) (st : state)
    (call : list dataset_row * list metric_obj) :
  call ∈ new_engine_calls st
           (evaluate w input_text output_text metrics params st).2 →
  ∃ row c eval_params,
    call.1 = [row]
    ∧ contexts row = [c] ∧ retrieved_contexts row = [c]
    ∧ c ≠ ""
    ∧ from_request_params w params = Ok eval_params
    ∧ (context eval_params = Some c
       ∨ (c = "No specific context provided"
          ∧ (context eval_params = None ∨ context eval_params = Some ""))).
Proof.
  intros (ep & Hep & Hd & _)%evaluate_call_ok.
  destruct (make_contexts_single ep) as (c & Hc & Hne & Hsrc).
  eexists _, c, ep. rewrite Hd. unfold make_dataset. simpl.
  by repeat split.
Qed.

Lemma engine_context_never_empty_witness :
  let w := sample_world "asyncio" instance_exports constant_engine in
  let st := sample_state ∅ in
  let run := evaluate w "q" "a" ["faithfulness"] {[ "context" := "" ]} st in
  ∃ call,
    call ∈ new_engine_calls st run.2
    ∧ ∃ row c eval_params,
        call.1 = [row]
        ∧ contexts row = [c] ∧ retrieved_contexts row = [c]
        ∧ c ≠ ""
        ∧ from_request_params w {[ "context" := "" ]} = Ok eval_params
        ∧ (context eval_params = Some c
           ∨ (c = "No specific context provided"
              ∧ (context eval_params = None
                 ∨ context eval_params = Some ""))).
Proof.
  intros w st run.
  assert (Hcalls : ∃ call, new_engine_calls st run.2 = [call])
    by (eexists; vm_compute; reflexivity).
  destruct Hcalls as [call Hcalls]. exists call.
  assert (Hin : call ∈ new_engine_calls st run.2)
    by (rewrite Hcalls; apply list_elem_of_singleton; reflexivity).
  split; [exact Hin|].
  exact (engine_context_never_empty w "q" "a" ["faithfulness"]
           {[ "context" := "" ]} st call Hin).
Defined.

(** X14. Every call to the engine hands it one metric object for each
    requested name that has an engine metric (a name requested twice, or
    two names bound to the same metric, count twice), never an empty list;
    each of these objects has been initialised and, if it is a metric with
    LLM, carries an LLM handle. *)
Theorem engine_metrics_are_ready (w : world)
    (input_text output_text : string) (metrics : list string)
    (params : gmap string string) (st : state)
    (call : list dataset_row * list metric_obj) :
  call ∈ new_engine_calls st
           (evaluate w input_text output_text metrics params st).2 →
  length call.2 = count_bound metrics
  ∧ 0 < count_bound metrics
  ∧ Forall ready call.2.
Proof.
  intros (ep & _ & _ & Hlen & Hpos & Hready)%evaluate_call_ok. done.
Qed.

Lemma engine_metrics_are_ready_witness :
  let w := sample_world "<class 'uvloop.Loop'>" instance_exports
                        constant_engine in
  let st := sample_state ∅ in
  let metrics := ["relevance"; "banana"; "helpfulness"; "faithfulness"] in
  let run := evaluate w "q" "a" metrics ∅ st in
  ∃ call,
    call ∈ new_engine_calls st run.2
    ∧ length call.2 = 3
    ∧ count_bound metrics = 3
    ∧ Forall ready call.2.
Proof.
  intros w st metrics run.
  assert (Hcalls : ∃ call, new_engine_calls st run.2 = [call])
    by (eexists; vm_compute; reflexivity).
  destruct Hcalls as [call Hcalls]. exists call.
  assert (Hin : call ∈ new_engine_calls st run.2)
    by (rewrite Hcalls; apply list_elem_of_singleton; reflexivity).
  split; [exact Hin|].
  assert (Hcount : count_bound metrics = 3) by (vm_compute; reflexivity).
  pose proof (engine_metrics_are_ready w "q" "a" metrics ∅ st call Hin)
    as (Hlen & _ & Hready).
  split; [by rewrite Hlen|]. split; [exact Hcount | exact Hready].
Defined.

(** X15. [evaluate] calls the engine at most once (there is no retry), and
    it only ever adds to the record of calls. *)
Theorem engine_called_at_most_once (w : world)
    (input_text output_text : string) (metrics : list string)
    (params : gmap string string) (st : state) :
  let st' := (evaluate w input_text output_text metrics params st).2 in
  length (new_engine_calls st st') ≤ 1
  ∧ engine_calls st' = engine_calls st ++ new_engine_calls st st'.
Proof.
  unfold new_engine_calls. simpl.
  destruct (evaluate_spec w input_text output_text metrics params
              (engine_calls st) st eq_refl)
    as [[Hc _]|(ctxs & bm & Hc & _)]; rewrite Hc.
  - rewrite drop_all, app_nil_r. simpl. split; [lia | done].
  - rewrite drop_app_length. simpl. split; [lia | done].
Qed.


(** * Further properties of the environment handling *)


(** On the isolated path a value that cannot be written ends the call in
    [_run_ragas_sync] before its [try]: [evaluate] answers with the
    fallback scorer in the state the assignments left. *)
Lemma evaluate_unsettable (w : world) (input_text output_text : string)
    (metrics : list string) (params : gmap string string) (st : state) :
  isolated w = true →
  settable params = false →
  evaluate w input_text output_text metrics params st
  = (Ok (_fallback_evaluation input_text output_text metrics),
     (set_provider_environment params st).2).
Proof.
  unfold isolated, evaluate, try_except, mbind, M_bind, bind, detect_uvloop.
  intros Hiso Hset.
  destruct (get_event_loop w) as [loop_type|e]; [|discriminate Hiso].
  simpl. rewrite Hiso.
  unfold _run_ragas_sync, mbind, M_bind, bind.
  pose proof (set_provider_environment_spec params (environ st)
                (engine_calls st) st (conj eq_refl eq_refl)) as Hspec.
  destruct (set_provider_environment params st) as [r1 st1].
  simpl in Hspec. destruct Hspec as (-> & _). by rewrite Hset.
Qed.




(** X21. On the isolated path, a value with a NUL character among those
    the call would write makes [os.environ[...] = value] raise before the
    [try] of [_run_ragas_sync], so its [finally] never runs: [evaluate]
    answers with the fallback scorer without calling the engine, and the
    variables assigned before the failing one keep the call's values. *)
Theorem unwritable_value_leaks_environment (w : world)
    (input_text output_text : string) (metrics : list string)
    (params : gmap string string) (st : state) :
  isolated w = true →
  settable params = false →
  let run := evaluate w input_text output_text metrics params st in
  run.1 = Ok (_fallback_evaluation input_text output_text metrics)
  ∧ environ run.2 = assign (environ st) (provider_assignments params)
  ∧ new_engine_calls st run.2 = [].
Proof.
  intros Hiso Hset. simpl.
  rewrite (evaluate_unsettable w input_text output_text metrics params st
             Hiso Hset).
  destruct (set_provider_environment_assign params st) as (HE & HC & _).
  cbn [fst snd]. split; [done|]. split; [exact HE|].
  unfold new_engine_calls. rewrite HC. apply drop_all.
Qed.

Lemma unwritable_value_leaks_environment_witness :
  let E : gmap string string := {[ "PATH" := "/usr/bin" ]} in
  let params : gmap string string :=
    <["langfuse.azure_api_key" := "k"]>
      {[ "langfuse.azure_endpoint" := text_with_nul ]} in
  let w := sample_world "<class 'uvloop.Loop'>" instance_exports
                        constant_engine in
  let run := evaluate w "q" "a" ["relevance"] params (sample_state E) in
  isolated w = true
  ∧ settable params = false
  ∧ (run.1 = Ok (_fallback_evaluation "q" "a" ["relevance"])
     ∧ environ run.2 = assign E (provider_assignments params)
     ∧ new_engine_calls (sample_state E) run.2 = [])
  ∧ assign E (provider_assignments params)
    = <["AZURE_OPENAI_API_KEY" := "k"]> E.
Proof.
  intros E params w run.
  assert (Hiso : isolated w = true) by (vm_compute; reflexivity).
  assert (Hset : settable params = false) by (vm_compute; reflexivity).
  split; [exact Hiso|]. split; [exact Hset|].
  split; [|vm_compute; reflexivity].
  exact (unwritable_value_leaks_environment w "q" "a" ["relevance"] params
           (sample_state E) Hiso Hset).
Defined.


(** * Further properties of the metric heap *)

Lemma grows_refl (o : metric_obj) : grows o o.
Proof. by repeat split. Qed.

Lemma grows_trans (o1 o2 o3 : metric_obj) :
  grows o1 o2 → grows o2 o3 → grows o1 o3.
Proof.
  intros (Hn & Hl & He & Hll & Hem & Hi) (Hn' & Hl' & He' & Hll' & Hem' & Hi').
  repeat split; try congruence; auto.
Qed.

Lemma configured_grows (w : world) (llm_h : handle) (emb : option handle)
    (o : metric_obj) :
  grows o (configured w llm_h emb o).1.
Proof.
  unfold configured, grows.
  destruct (is_MetricWithLLM o) eqn:Hllm; destruct emb as [e|]; simpl;
    rewrite ?Hllm; try destruct (is_MetricWithEmbeddings o) eqn:Hemb;
    match goal with
    | |- context [metric_init w ?o'] => destruct (metric_init w o')
    end; simpl; repeat split; eauto.
Qed.

Section keeps_objects.
Context (h0 : list metric_obj).

Lemma keeps_same_heap {A} (m : M A) :
  (∀ st, heap (m st).2 = heap st) → stable (keeps_objects h0) m.
Proof. intros Hm st Hst l o Hl. rewrite Hm. by apply Hst. Qed.

Lemma keeps_alloc (o : metric_obj) : stable (keeps_objects h0) (alloc o).
Proof.
  intros st Hst l o0 Hl. destruct (Hst l o0 Hl) as (o' & Ho' & Hg).
  exists o'. split; [by apply lookup_app_l_Some | done].
Qed.

Lemma keeps_instantiate (w : world) (m : ragas_export) :
  stable (keeps_objects h0) (instantiate w m).
Proof.
  unfold instantiate. destruct (ragas_metrics_exports w m).
  - apply keeps_alloc.
  - apply stable_ret.
Qed.

Lemma keeps_configure (w : world) (llm_h : handle) (emb : option handle)
    (l : loc) :
  stable (keeps_objects h0) (configure w llm_h emb l).
Proof.
  intros st Hst. destruct (heap st !! l) as [o1|] eqn:Hl1.
  - rewrite (configure_in_place w llm_h emb l o1 st Hl1).
    intros l0 o Hl0. cbn [snd heap].
    destruct (Hst l0 o Hl0) as (o' & Ho' & Hg).
    destruct (decide (l0 = l)) as [->|Hne].
    + rewrite list_lookup_insert_eq by (by eapply lookup_lt_Some).
      eexists. split; [done|]. rewrite Hl1 in Ho'. injection Ho' as <-.
      eapply grows_trans; [exact Hg | apply configured_grows].
    + rewrite list_lookup_insert_ne by done. eauto.
  - by rewrite configure_dangling.
Qed.

Lemma keeps_bind_metrics (w : world) (llm_h : handle) (emb : option handle)
    (metrics : list string) (supported_metrics : list loc) (bound : bool) :
  stable (keeps_objects h0)
         (bind_metrics w llm_h emb metrics supported_metrics bound).
Proof.
  revert supported_metrics bound.
  induction metrics as [|metric rest IH]; intros supp bound; simpl.
  - apply stable_ret.
  - destruct (ragas_metric_map !! metric) as [[m|]|]; try apply IH.
    repeat first
      [ apply IH | apply stable_import | apply keeps_instantiate
      | apply keeps_configure | apply stable_bind; [|intros ?] ].
Qed.

Lemma keeps_default_metrics (w : world) (llm_h : handle)
    (emb : option handle) (bound : bool) :
  stable (keeps_objects h0) (default_metrics w llm_h emb bound).
Proof.
  unfold default_metrics.
  repeat first
    [ apply keeps_instantiate | apply keeps_configure
    | apply stable_ret | apply stable_raise
    | match goal with
      | |- stable _ (if ?b then _ else _) => destruct b
      end
    | apply stable_bind; [|intros ?] ].
Qed.

Lemma keeps_make_llm (w : world) (provider_type : string)
    (llm_config : gmap string string) :
  stable (keeps_objects h0) (make_llm w provider_type llm_config).
Proof.
  unfold make_llm.
  repeat first
    [ apply stable_try_except; [|intros ?]
    | apply stable_bind; [|intros ?]
    | apply stable_import | apply stable_lift
    | apply stable_ret | apply stable_raise ].
Qed.

Lemma keeps_make_embeddings (w : world) (provider_type : string)
    (llm_config params : gmap string string) :
  stable (keeps_objects h0)
         (make_embeddings w provider_type llm_config params).
Proof.
  unfold make_embeddings.
  apply stable_try_except; [|intros ?; apply stable_ret].
  case_decide; [|apply stable_ret].
  repeat first
    [ apply stable_try_except; [|intros ?]
    | apply stable_bind; [|intros ?]
    | apply stable_import | apply stable_lift | apply stable_getitem
    | apply stable_ret | apply stable_raise ].
Qed.

Lemma keeps_run_ragas_async (w : world) (input_text output_text : string)
    (metrics : list string) (params : gmap string string) :
  stable (keeps_objects h0)
         (_run_ragas_async w input_text output_text metrics params).
Proof.
  unfold _run_ragas_async.
  do 3 (apply stable_bind; [apply stable_import | intros _]).
  apply stable_bind; [apply stable_lift | intros [provider_type llm_config]].
  apply stable_bind; [apply keeps_make_llm | intros llm_h].
  apply stable_bind; [apply keeps_make_embeddings | intros emb].
  apply stable_bind; [apply keeps_bind_metrics | intros [supp bound]].
  apply stable_bind;
    [destruct supp; [apply keeps_default_metrics | apply stable_ret]
    | intros supp'].
  apply stable_bind; [apply stable_lift | intros eval_params].
  apply stable_bind; [by apply keeps_same_heap | intros bm].
  apply stable_bind; [by apply keeps_same_heap | intros _].
  destruct (ev_ragas w _ bm) as [[|rd rs]|e].
  - apply stable_bind; [apply stable_raise | intros ?; apply stable_ret].
  - apply stable_bind; [apply stable_ret | intros ?; apply stable_ret].
  - apply stable_ret.
Qed.

Lemma keeps_set_provider_environment (params : gmap string string) :
  stable (keeps_objects h0) (set_provider_environment params).
Proof.
  apply keeps_same_heap. intros st.
  by destruct (set_provider_environment_assign params st) as (_ & _ & Hh).
Qed.

Lemma keeps_clean_up_environment (vars : list string) :
  stable (keeps_objects h0) (clean_up_environment vars).
Proof.
  apply keeps_same_heap. intros st.
  by destruct (clean_up_environment_spec vars [] st) as (_ & _ & Hh & _).
Qed.

Lemma keeps_evaluate (w : world) (input_text output_text : string)
    (metrics : list string) (params : gmap string string) :
  stable (keeps_objects h0)
         (evaluate w input_text output_text metrics params).
Proof.
  unfold evaluate.
  apply stable_try_except; [|intros []; apply stable_ret].
  apply stable_bind.
  - unfold detect_uvloop. destruct (get_event_loop w) as [loop_type|[]];
      first [apply stable_ret | apply stable_raise].
  - intros [|]; [|apply keeps_run_ragas_async].
    unfold _run_ragas_sync.
    apply stable_bind; [apply keeps_set_provider_environment | intros vars].
    intros st Hst. unfold try_finally, try_except.
    pose proof (keeps_run_ragas_async w input_text output_text metrics params
                  st Hst) as Hrun.
    destruct (_run_ragas_async w input_text output_text metrics params st)
      as [r st1]; simpl in Hrun.
    assert (Hbody : (match r with
                     | Ok a => (Ok a, st1)
                     | Raise e => raise e st1
                     end) = (r, st1)) by (by destruct r).
    rewrite Hbody.
    pose proof (keeps_clean_up_environment vars st1 Hrun) as Hclean.
    destruct (clean_up_environment vars st1) as [[[]|e] st2]; exact Hclean.
Qed.
End keeps_objects.

(** X18. A call never removes a metric object and never changes which
    metric an object is: every object of the heap is still there after
    [evaluate], with the same name and the same capability classes; and a
    call never detaches anything: an object that had an LLM handle or an
    embeddings handle still has one, an initialised object is still
    initialised. *)
Theorem evaluate_keeps_metric_objects (w : world)
    (input_text output_text : string) (metrics : list string)
    (params : gmap string string) (st : state) (l : loc) (o : metric_obj) :
  heap st !! l = Some o →
  ∃ o',
    heap (evaluate w input_text output_text metrics params st).2 !! l
    = Some o'
    ∧ name o' = name o
    ∧ is_MetricWithLLM o' = is_MetricWithLLM o
    ∧ is_MetricWithEmbeddings o' = is_MetricWithEmbeddings o
    ∧ (is_Some (llm o) → is_Some (llm o'))
    ∧ (is_Some (embeddings o) → is_Some (embeddings o'))
    ∧ (initialised o = true → initialised o' = true).
Proof.
  intros Hl.
  assert (Hst : keeps_objects (heap st) st)
    by (intros l0 o0 Hl0; exists o0; split; [done | apply grows_refl]).
  exact (keeps_evaluate (heap st) w input_text output_text metrics params
           st Hst l o Hl).
Qed.

Lemma evaluate_keeps_metric_objects_witness :
  let w := sample_world "asyncio" instance_exports constant_engine in
  let azure : gmap string string := {[ "langfuse.azure_api_key" := "k" ]} in
  let st1 := (evaluate w "q" "a" ["relevance"] azure (sample_state ∅)).2 in
  let o := MetricObj "answer_relevancy" true true (Some 11) (Some 29) true in
  heap st1 !! 0 = Some o
  ∧ ∃ o',
      heap (evaluate w "q2" "a2" ["relevance"] ∅ st1).2 !! 0 = Some o'
      ∧ name o' = name o
      ∧ is_MetricWithLLM o' = is_MetricWithLLM o
      ∧ is_MetricWithEmbeddings o' = is_MetricWithEmbeddings o
      ∧ (is_Some (llm o) → is_Some (llm o'))
      ∧ (is_Some (embeddings o) → is_Some (embeddings o'))
      ∧ (initialised o = true → initialised o' = true).
Proof.
  intros w azure st1 o.
  assert (Hl : heap st1 !! 0 = Some o) by (vm_compute; reflexivity).
  split; [exact Hl|].
  exact (evaluate_keeps_metric_objects w "q2" "a2" ["relevance"] ∅ st1 0 o
           Hl).
Defined.


(** * Further properties of [evaluate] *)

(** X19. When the engine is called and answers, the number it gives for a
    bound metric comes back unchanged under the requested name: the score
    of a name is the value of the first record under the name of the
    engine metric bound for it, whatever its size (only not-a-number is
    replaced). *)
Theorem engine_score_is_returned (w : world)
    (input_text output_text : string) (metrics : list string)
    (params : gmap string string) (st : state)
    (call : list dataset_row * list metric_obj)
    (result_dict : gmap string pyfloat) (rest : list (gmap string pyfloat))
    (metric : string) (m : ragas_export) (value : pyfloat) :
  engine_calls (evaluate w input_text output_text metrics params st).2
  = engine_calls st ++ [call] →
  ev_ragas w call.1 call.2 = Ok (result_dict :: rest) →
  metric ∈ metrics →
  engine_metric metric = Some m →
  result_dict !! export_name m = Some value →
  isnan value = false →
  ∃ scores,
    (evaluate w input_text output_text metrics params st).1 = Ok scores
    ∧ scores !! metric = Some value.
Proof.
  intros Hcalls Hev Hin Hm Hv Hnan. eexists.
  split; [by apply evaluate_engine_scores|].
  unfold engine_scores. rewrite Hev, normalize_lookup by done.
  rewrite normalized_score_bound, Hm. simpl. by rewrite Hv, Hnan.
Qed.

Lemma engine_score_is_returned_witness :
  let w := sample_world "<class 'uvloop.Loop'>" instance_exports
                        constant_engine in
  let st := sample_state ∅ in
  let metrics := ["clarity"; "toxicity"] in
  let run := evaluate w "q" "a" metrics ∅ st in
  ∃ call result_dict,
    engine_calls run.2 = engine_calls st ++ [call]
    ∧ ev_ragas w call.1 call.2 = Ok [result_dict]
    ∧ "clarity" ∈ metrics
    ∧ engine_metric "clarity" = Some answer_similarity
    ∧ result_dict !! export_name answer_similarity = Some (Fin (4 # 5))
    ∧ ∃ scores, run.1 = Ok scores ∧ scores !! "clarity" = Some (Fin (4 # 5)).
Proof.
  intros w st metrics run.
  eexists _, _.
  split; [vm_compute; reflexivity|].
  split; [vm_compute; reflexivity|].
  assert (Hin : "clarity" ∈ metrics) by apply list_elem_of_here.
  split; [exact Hin|]. split; [reflexivity|].
  split; [vm_compute; reflexivity|].
  refine (engine_score_is_returned w "q" "a" metrics ∅ st _ _ []
            "clarity" answer_similarity (Fin (4 # 5)) _ _ Hin eq_refl _
            eq_refl).
  - vm_compute. reflexivity.
  - vm_compute. reflexivity.
  - vm_compute. reflexivity.
Defined.

(** X20. When the request parameters cannot be parsed
    ([EvaluationParameters.from_request_params] raises, line 249, which no
    handler of its own guards), [evaluate] returns the fallback scores and
    the engine is never called. *)
Theorem bad_parameters_fall_back (w : world)
    (input_text output_text : string) (metrics : list string)
    (params : gmap string string) (st : state) (e : exn) :
  from_request_params w params = Raise e →
  (evaluate w input_text output_text metrics params st).1
  = Ok (_fallback_evaluation input_text output_text metrics)
  ∧ engine_calls (evaluate w input_text output_text metrics params st).2
    = engine_calls st.
Proof.
  intros Hparams. apply evaluate_when_async_fails. intros E C.
  unfold _run_ragas_async.
  do 3 (apply fails_bind_r; [apply stable_import | intros _]).
  apply fails_bind_r; [apply stable_lift | intros [provider_type llm_config]].
  apply fails_bind_r; [apply unchanged_make_llm | intros llm_h].
  apply fails_bind_r; [apply unchanged_make_embeddings | intros emb].
  apply fails_bind_r; [apply unchanged_bind_metrics | intros [supp bound]].
  apply fails_bind_r;
    [destruct supp; [apply unchanged_default_metrics | apply stable_ret]
    | intros supp'].
  rewrite Hparams. apply fails_bind_l, fails_lift.
Qed.

Lemma bad_parameters_fall_back_witness :
  from_request_params bad_parameters_world ∅ = Raise OtherException
  ∧ (evaluate bad_parameters_world "q" "a long enough answer"
              ["relevance"; "correctness"] ∅ (sample_state ∅)).1
    = Ok (_fallback_evaluation "q" "a long enough answer"
            ["relevance"; "correctness"])
  ∧ engine_calls
      (evaluate bad_parameters_world "q" "a long enough answer"
                ["relevance"; "correctness"] ∅ (sample_state ∅)).2
    = engine_calls (sample_state ∅).
Proof.
  split; [reflexivity|].
  exact (bad_parameters_fall_back bad_parameters_world "q"
           "a long enough answer" ["relevance"; "correctness"] ∅
           (sample_state ∅) OtherException eq_refl).
Defined.
